(** * deepseeked.py: the reasoning-tag filter of the Ollama proxy

    A shallow embedding of [src/deepseeked.py] and the properties of its
    streaming filter ([process_thinking_content], [is_empty_content],
    [generate]) and of the non-streaming cleanup
    ([clean_response_content]).

    Python values are modelled as follows.
    - [str]: a list of Unicode code points ([N]); [bytes]: a list of
      [Byte.byte].
    - [bool] flag [thinking_started]: [bool] ([Normal] is [false],
      [InsideThinking] is [true]).
    - [str.find]: an integer ([Z]), [-1] when absent; slices take integer
      bounds with Python's treatment of negative and oversized bounds.
    - exceptions that leave a function: a result type of their own.
    - the [while] loop of the cleanup: a loop with an iteration budget,
      [None] when the budget is used up. *)

From Stdlib Require Import Strings.Ascii Strings.String Strings.Byte.
From Stdlib Require Import NArith ZArith Bool Lia List.
Import ListNotations.

Local Open Scope list_scope.

(** ** Text *)

Definition char := N.
Definition str := list char.

(** Code points of an ASCII literal. *)
Definition py (s : string) : str :=
  map N_of_ascii (list_ascii_of_string s).

Definition char_eqb (a b : char) : bool := N.eqb a b.

Fixpoint str_eqb (a b : str) : bool :=
  match a, b with
  | [], [] => true
  | x :: a', y :: b' => char_eqb x y && str_eqb a' b'
  | _, _ => false
  end.

(** [s.startswith(pat)]. *)
Fixpoint prefixb (pat s : str) : bool :=
  match pat, s with
  | [], _ => true
  | _ :: _, [] => false
  | p :: pat', c :: s' => char_eqb p c && prefixb pat' s'
  end.

(** Offset of the first occurrence of [pat] in [s], if any. *)
Fixpoint index_of (pat s : str) : option nat :=
  if prefixb pat s then Some 0
  else match s with
       | [] => None
       | _ :: s' => option_map S (index_of pat s')
       end.

(** [pat in s]. *)
Definition occurs (pat s : str) : bool :=
  match index_of pat s with Some _ => true | None => false end.

(** [s.find(pat)]: the offset, or [-1]. *)
Definition find (pat s : str) : Z :=
  match index_of pat s with Some i => Z.of_nat i | None => (-1)%Z end.

(** A slice bound as Python normalises it: a negative bound counts from
    the end, and the result is clamped to [0 .. len]. *)
Definition slice_bound (len : nat) (i : Z) : nat :=
  let l := Z.of_nat len in
  let j := if (i <? 0)%Z then Z.max 0 (i + l) else i in
  Z.to_nat (Z.min l j).

(** [s[:stop]] and [s[start:]]. *)
Definition slice_to (s : str) (stop : Z) : str :=
  firstn (slice_bound (length s) stop) s.

Definition slice_from (s : str) (start : Z) : str :=
  skipn (slice_bound (length s) start) s.

(** [s.split(sep)] for a non-empty [sep]: the pieces between successive
    non-overlapping occurrences, scanning from the left.  Every round
    consumes at least [length sep] characters, so [length s] rounds are
    enough ([split_fuel_enough]). *)
Fixpoint split_fuel (fuel : nat) (sep s : str) : list str :=
  match index_of sep s with
  | None => [s]
  | Some i =>
      match fuel with
      | O => [s]
      | S fuel' =>
          firstn i s :: split_fuel fuel' sep (skipn (i + length sep) s)
      end
  end.

Definition split (sep s : str) : list str := split_fuel (length s) sep s.

(** [sep.join(pieces)]. *)
Fixpoint join (sep : str) (pieces : list str) : str :=
  match pieces with
  | [] => []
  | [p] => p
  | p :: rest => p ++ sep ++ join sep rest
  end.

(** [c.isspace()] for one code point: the Unicode white space of CPython
    (also what [\s] matches in a [str] pattern). *)
Definition isspace (c : char) : bool :=
  ((9 <=? c) && (c <=? 13) || (28 <=? c) && (c <=? 32)
   || (c =? 133) || (c =? 160) || (c =? 5760)
   || (8192 <=? c) && (c <=? 8202)
   || (c =? 8232) || (c =? 8233) || (c =? 8239) || (c =? 8287)
   || (c =? 12288))%N.

Fixpoint lstrip (s : str) : str :=
  match s with
  | c :: s' => if isspace c then lstrip s' else s
  | [] => []
  end.

Fixpoint rstrip (s : str) : str :=
  match s with
  | [] => []
  | c :: s' =>
      match rstrip s' with
      | [] => if isspace c then [] else [c]
      | t => c :: t
      end
  end.

(** [s.strip()]. *)
Definition strip (s : str) : str := rstrip (lstrip s).

(** The three markers. *)
Definition fence : str := py "```".
Definition open_tag : str := py "<think>".
Definition close_tag : str := py "</think>".
Definition json_tag : str := py "json".
Definition newline : char := 10%N.

(** ** The pattern [```(?:json)?\s*(.*?)\s*```] under [re.DOTALL]

    A backtracking matcher is a function from the text still to be read to
    the list of ways it can go on, in the order the engine tries them; the
    first way that lets the whole pattern succeed is the match. *)

Definition lit (pat s : str) : list str :=
  if prefixb pat s then [skipn (length pat) s] else [].

(** [(?:json)?], greedy: with the tag first, then without. *)
Definition opt_json (s : str) : list str := lit json_tag s ++ [s].

(** [\s*], greedy: the longest run of white space first. *)
Fixpoint ws_greedy (s : str) : list str :=
  match s with
  | c :: s' => if isspace c then ws_greedy s' ++ [s] else [s]
  | [] => [[]]
  end.

(** [(.*?)], lazy, and [.] matches every character: the shortest group
    first.  Each way is the group with the text left after it. *)
Fixpoint any_lazy (s : str) : list (str * str) :=
  ([], s) ::
  match s with
  | [] => []
  | c :: s' => map (fun gr => (c :: fst gr, snd gr)) (any_lazy s')
  end.

(** The pattern from the right, each stage with the ways the rest of the
    pattern matches from it, reported as group 1: the closing fence after
    white space ([g] is the group already read), the group and what
    follows it, the white space before the group, the optional tag, and
    the opening fence. *)
Definition closing_fence (g s : str) : list str :=
  flat_map (fun s' => flat_map (fun _ => [g]) (lit fence s')) (ws_greedy s).

Definition group_to_close (s : str) : list str :=
  flat_map (fun gr => closing_fence (fst gr) (snd gr)) (any_lazy s).

Definition blanks_to_close (s : str) : list str :=
  flat_map group_to_close (ws_greedy s).

Definition tag_to_close (s : str) : list str :=
  flat_map blanks_to_close (opt_json s).

(** All ways the pattern matches at the start of [s], in the engine's
    order. *)
Definition fence_matches_at (s : str) : list str :=
  flat_map tag_to_close (lit fence s).

(** [re.search(pattern, s, re.DOTALL)], reported as [group(1)] of the match:
    the leftmost start at which the pattern matches, and the first way there. *)
Fixpoint re_search_fence (s : str) : option str :=
  match fence_matches_at s with
  | g :: _ => Some g
  | [] => match s with
          | [] => None
          | _ :: s' => re_search_fence s'
          end
  end.

(** ** The tag filter *)

Definition Normal : bool := false.
Definition InsideThinking : bool := true.

(** Lines 19-24: the clean-up of markdown code blocks. *)
Definition unwrap_fence (message_content : str) : str :=
  if occurs fence message_content then
    match re_search_fence message_content with
    | Some group1 => strip group1
    | None => message_content
    end
  else message_content.

(** Lines 26-44, on the text left by [unwrap_fence]. *)
Definition filter_tags (message_content : str) (thinking_started : bool)
  : str * bool :=
  if occurs open_tag message_content then
    (hd [] (split open_tag message_content), true)
  else if occurs close_tag message_content then
    (last (split close_tag message_content) [], false)
  else if thinking_started then ([], thinking_started)
  else (message_content, thinking_started).

(** [process_thinking_content(message_content, thinking_started)] for a
    [str] argument. *)
Definition process_thinking_content (message_content : str)
  (thinking_started : bool) : str * bool :=
  match message_content with
  | [] => ([], thinking_started)
  | _ => filter_tags (unwrap_fence message_content) thinking_started
  end.

(** [is_empty_content(message_content)] for a [str] argument. *)
Definition is_empty_content (message_content : str) : bool :=
  match message_content with
  | [] => true
  | _ => match strip message_content with [] => true | _ => false end
  end.

(** ** The non-streaming cleanup *)

(** The condition of the [while] loop (line 58). *)
Definition has_span (content : str) : bool :=
  occurs open_tag content && occurs close_tag content.

(** One round of the loop (lines 59-61). *)
Definition strip_first_span (content : str) : str :=
  let start := find open_tag content in
  let end_ := (find close_tag content + Z.of_nat (length close_tag))%Z in
  slice_to content start ++ slice_from content end_.

(** The loop, run for at most [fuel] rounds: [None] when the condition
    still holds after them. *)
Fixpoint strip_spans (fuel : nat) (content : str) : option str :=
  if has_span content then
    match fuel with
    | O => None
    | S fuel' => strip_spans fuel' (strip_first_span content)
    end
  else Some content.

Definition nonempty (s : str) : bool :=
  match s with [] => false | _ :: _ => true end.

(** Line 64: ['\n'.join(filter(None, content.split('\n')))]. *)
Definition collapse_newlines (content : str) : str :=
  join [newline] (filter nonempty (split [newline] content)).

(** [clean_response_content(content)] for a [str] argument. *)
Definition clean_response_content (fuel : nat) (content : str)
  : option str :=
  match content with
  | [] => Some content
  | _ =>
      match strip_spans fuel content with
      | Some stripped => Some (strip (collapse_newlines stripped))
      | None => None
      end
  end.

(** ** Parsed records

    What [json.loads] returns: [dict] as an association list in insertion
    order with distinct keys, [float] by the value it was read from. *)

Inductive pyfloat :=
| FNaN
| FInf (negative : bool)
| FDec (mantissa exponent : Z).   (* the double nearest mantissa * 10^exponent *)

#[warnings="-register-all"]
Inductive json :=
| JNull
| JBool (b : bool)
| JInt (n : Z)
| JFloat (f : pyfloat)
| JStr (s : str)
| JList (items : list json)
| JDict (members : list (str * json)).

(** [bool(f)], that is [f != 0.0]: a decimal rounds to zero exactly when
    its magnitude is at most [2^-1075], half the least subnormal. *)
Definition float_truthy (f : pyfloat) : bool :=
  match f with
  | FNaN | FInf _ => true
  | FDec m e =>
      if (m =? 0)%Z then false
      else if (0 <=? e)%Z then true
      else (10 ^ (- e) <? Z.abs m * 2 ^ 1075)%Z
  end.

(** [bool(v)]. *)
Definition truthy (v : json) : bool :=
  match v with
  | JNull => false
  | JBool b => b
  | JInt n => negb (n =? 0)%Z
  | JFloat f => float_truthy f
  | JStr s => nonempty s
  | JList items => match items with [] => false | _ => true end
  | JDict members => match members with [] => false | _ => true end
  end.

Fixpoint dict_get (members : list (str * json)) (key : str) : option json :=
  match members with
  | [] => None
  | (k, v) :: rest => if str_eqb k key then Some v else dict_get rest key
  end.

(** [d[key] = v]: in place when the key is there, at the end otherwise. *)
Fixpoint dict_set (members : list (str * json)) (key : str) (v : json)
  : list (str * json) :=
  match members with
  | [] => [(key, v)]
  | (k, w) :: rest =>
      if str_eqb k key then (k, v) :: rest
      else (k, w) :: dict_set rest key v
  end.

(** Exceptions that leave [generate]. *)
Inductive exn :=
| UnicodeDecodeError
| TypeError
| AttributeError
| KeyError
| RecursionError
| ValueError.

(** A computation that returns or raises. *)
Definition result (A : Type) : Type := (exn + A)%type.

Definition ret {A : Type} (a : A) : result A := inr a.
Definition raise {A : Type} (e : exn) : result A := inl e.

Definition bind {A B : Type} (m : result A) (k : A -> result B) : result B :=
  match m with
  | inl e => inl e
  | inr a => k a
  end.

Declare Scope result_scope.
Delimit Scope result_scope with result.
Notation "x <- m ;; k" := (bind m (fun x => k))
  (at level 61, m at next level, right associativity) : result_scope.

Local Open Scope result_scope.

(** [key in v] for a [str] key. *)
Definition contains (key : str) (v : json) : result bool :=
  match v with
  | JDict members =>
      ret (match dict_get members key with Some _ => true | None => false end)
  | JList items =>
      ret (existsb (fun x => match x with
                             | JStr s => str_eqb s key
                             | _ => false
                             end) items)
  | JStr s => ret (occurs key s)
  | _ => raise TypeError
  end.

(** [v[key]] for a [str] key. *)
Definition getitem (v : json) (key : str) : result json :=
  match v with
  | JDict members =>
      match dict_get members key with
      | Some x => ret x
      | None => raise KeyError
      end
  | _ => raise TypeError
  end.

(** [v[key] = x] for a [str] key, as the value [v] stands for afterwards. *)
Definition setitem (v : json) (key : str) (x : json) : result json :=
  match v with
  | JDict members => ret (JDict (dict_set members key x))
  | _ => raise TypeError
  end.

(** [process_thinking_content] on whatever [data['message']['content']]
    holds.  A value that is no [str] runs the same lines: the membership
    tests mean key or item membership, [re.search] raises [TypeError],
    [split] raises [AttributeError]. *)
Definition process_thinking_value (message_content : json)
  (thinking_started : bool) : result (json * bool) :=
  match message_content with
  | JStr s =>
      let r := process_thinking_content s thinking_started in
      ret (JStr (fst r), snd r)
  | _ =>
      if negb (truthy message_content) then ret (JStr [], thinking_started)
      else
        fenced <- contains fence message_content ;;
        if fenced : bool then raise TypeError
        else
          opened <- contains open_tag message_content ;;
          if opened : bool then raise AttributeError
          else
            closed <- contains close_tag message_content ;;
            if closed : bool then raise AttributeError
            else if thinking_started then ret (JStr [], thinking_started)
            else ret (message_content, thinking_started)
  end.

(** [is_empty_content] on whatever the filter returned. *)
Definition is_empty_value (message_content : json) : result bool :=
  match message_content with
  | JStr s => ret (is_empty_content s)
  | _ => if truthy message_content then raise AttributeError else ret true
  end.

(** ** The streaming transformer *)

Definition bytes := list byte.

(** What [json.loads] does with a text: a value, [JSONDecodeError], or
    another exception. *)
Inductive loads_result :=
| Parsed (data : json)
| JSONDecodeError
| LoadsRaised (e : exn).

(** One [yield] of [generate]: [chunk + b'\n'] or
    [json.dumps(data).encode('utf-8') + b'\n']. *)
Inductive record :=
| Raw (chunk : bytes)
| Dumped (data : json).

(** [chunk.decode('utf-8')], strict: shortest encodings only, no
    surrogates, nothing above U+10FFFF; [None] is [UnicodeDecodeError]. *)
Definition continuation (b : N) : bool := ((128 <=? b) && (b <=? 191))%N.

Definition second_of_three (b0 b1 : N) : bool :=
  (if b0 =? 224 then (160 <=? b1) && (b1 <=? 191)
   else if b0 =? 237 then (128 <=? b1) && (b1 <=? 159)
   else continuation b1)%N.

Definition second_of_four (b0 b1 : N) : bool :=
  (if b0 =? 240 then (144 <=? b1) && (b1 <=? 191)
   else if b0 =? 244 then (128 <=? b1) && (b1 <=? 143)
   else continuation b1)%N.

Fixpoint utf8_decode_codes (l : list N) : option str :=
  match l with
  | [] => Some []
  | b0 :: r0 =>
      if (b0 <? 128)%N then option_map (cons b0) (utf8_decode_codes r0)
      else if ((194 <=? b0) && (b0 <=? 223))%N then
        match r0 with
        | b1 :: r1 =>
            if continuation b1 then
              option_map (cons ((b0 - 192) * 64 + (b1 - 128))%N)
                         (utf8_decode_codes r1)
            else None
        | _ => None
        end
      else if ((224 <=? b0) && (b0 <=? 239))%N then
        match r0 with
        | b1 :: b2 :: r2 =>
            if second_of_three b0 b1 && continuation b2 then
              option_map
                (cons ((b0 - 224) * 4096 + (b1 - 128) * 64 + (b2 - 128))%N)
                (utf8_decode_codes r2)
            else None
        | _ => None
        end
      else if ((240 <=? b0) && (b0 <=? 244))%N then
        match r0 with
        | b1 :: b2 :: b3 :: r3 =>
            if second_of_four b0 b1 && continuation b2 && continuation b3 then
              option_map
                (cons ((b0 - 240) * 262144 + (b1 - 128) * 4096
                       + (b2 - 128) * 64 + (b3 - 128))%N)
                (utf8_decode_codes r3)
            else None
        | _ => None
        end
      else None
  end.

Definition utf8_decode (chunk : bytes) : option str :=
  utf8_decode_codes (map Byte.to_N chunk).

Section Generate.

(** [json.loads], a function of the library. *)
Variable json_loads : str -> loads_result.

(** The body of the [for] loop of [generate] (lines 101-130) for one
    [chunk]: the records it yields and the flag afterwards, or the
    exception that leaves the generator.  Only [json.JSONDecodeError] is
    caught. *)
Definition generate_step (thinking_started : bool) (chunk : bytes)
  : result (list record * bool) :=
  match chunk with
  | [] => ret ([], thinking_started)
  | _ =>
      match utf8_decode chunk with
      | None => raise UnicodeDecodeError
      | Some text =>
          match json_loads text with
          | LoadsRaised e => raise e
          | JSONDecodeError => ret ([Raw chunk], thinking_started)
          | Parsed data =>
              has_message <- contains (py "message") data ;;
              has_content <-
                (if has_message : bool then
                   message <- getitem data (py "message") ;;
                   contains (py "content") message
                 else ret false) ;;
              if has_content : bool then
                message <- getitem data (py "message") ;;
                content <- getitem message (py "content") ;;
                processed <- process_thinking_value content thinking_started ;;
                let cleaned_content := fst processed in
                let thinking_started := snd processed in
                empty <- is_empty_value cleaned_content ;;
                if empty : bool then ret ([], thinking_started)
                else
                  message <- getitem data (py "message") ;;
                  message' <- setitem message (py "content") cleaned_content ;;
                  data' <- setitem data (py "message") message' ;;
                  ret ([Dumped data'], thinking_started)
              else ret ([Raw chunk], thinking_started)
          end
      end
  end.

(** [generate()] over the lines of the upstream response: everything
    yielded, and the exception that ended the generator, if one did. *)
Fixpoint generate_from (thinking_started : bool) (lines : list bytes)
  : list record * option exn :=
  match lines with
  | [] => ([], None)
  | chunk :: rest =>
      match generate_step thinking_started chunk with
      | inl e => ([], Some e)
      | inr (out, thinking_started') =>
          let r := generate_from thinking_started' rest in
          (out ++ fst r, snd r)
      end
  end.

Definition generate (lines : list bytes) : list record * option exn :=
  generate_from false lines.

End Generate.

(** The bytes of a yielded record, given [json.dumps] followed by
    [encode('utf-8')]. *)
Definition wire (json_dumps : json -> bytes) (r : record) : bytes :=
  match r with
  | Raw chunk => chunk ++ [Byte.x0a]
  | Dumped data => json_dumps data ++ [Byte.x0a]
  end.

(** The tag filter along a stream of text payloads: what each call
    retains, with the flag threaded as [generate] threads it. *)
Fixpoint retained (thinking_started : bool) (fragments : list str)
  : list str :=
  match fragments with
  | [] => []
  | f :: rest =>
      let r := process_thinking_content f thinking_started in
      fst r :: retained (snd r) rest
  end.

(** ** A reference [json.loads]

    The decoder of the [json] module after its grammar: objects, arrays,
    strings with their escapes, numbers, [true], [false], [null], and the
    constants [NaN], [Infinity] and [-Infinity], between optional blanks.
    A repeated key keeps its first place and its last value.  Every text
    outside the grammar is [JSONDecodeError].  The interpreter's limits
    are not part of it: an integer of more than 4300 digits and arrays
    nested beyond the recursion limit are read here, where CPython raises
    [ValueError] and [RecursionError].  It stands in for [json.loads] only
    in closed examples, on short texts; the theorems about [generate] hold
    for any [json_loads]. *)

Definition json_blank (c : char) : bool :=
  ((c =? 32) || (c =? 9) || (c =? 10) || (c =? 13))%N.

Fixpoint skip_blanks (s : str) : str :=
  match s with
  | c :: s' => if json_blank c then skip_blanks s' else s
  | [] => []
  end.

Definition is_digit (c : char) : bool := ((48 <=? c) && (c <=? 57))%N.

Definition hex_value (c : char) : option N :=
  (if (48 <=? c) && (c <=? 57) then Some (c - 48)
   else if (97 <=? c) && (c <=? 102) then Some (c - 87)
   else if (65 <=? c) && (c <=? 70) then Some (c - 55)
   else None)%N.

(** Four hexadecimal digits and the text after them. *)
Definition hex4 (s : str) : option (N * str) :=
  match s with
  | a :: b :: c :: d :: rest =>
      match hex_value a, hex_value b, hex_value c, hex_value d with
      | Some x, Some y, Some z, Some w =>
          Some (((x * 16 + y) * 16 + z) * 16 + w, rest)%N
      | _, _, _, _ => None
      end
  | _ => None
  end.

Definition unescape (c : char) : option char :=
  (if c =? 34 then Some 34 else if c =? 92 then Some 92
   else if c =? 47 then Some 47 else if c =? 98 then Some 8
   else if c =? 102 then Some 12 else if c =? 110 then Some 10
   else if c =? 114 then Some 13 else if c =? 116 then Some 9
   else None)%N.

Definition consumed (c : char) (r : option (str * str)) : option (str * str) :=
  match r with
  | Some (s, rest) => Some (c :: s, rest)
  | None => None
  end.

(** The body of a string after its opening quote, up to the closing one. *)
Fixpoint scanstring (fuel : nat) (s : str) : option (str * str) :=
  match fuel with
  | O => None
  | S fuel' =>
      match s with
      | [] => None
      | c :: s1 =>
          if (c =? 34)%N then Some ([], s1)
          else if (c =? 92)%N then
            match s1 with
            | [] => None
            | e :: s2 =>
                if (e =? 117)%N then
                  match hex4 s2 with
                  | None => None
                  | Some (u, s3) =>
                      if ((55296 <=? u) && (u <=? 56319))%N
                         && prefixb [92; 117]%N s3 then
                        match hex4 (skipn 2 s3) with
                        | None => None
                        | Some (u2, s4) =>
                            if ((56320 <=? u2) && (u2 <=? 57343))%N then
                              consumed
                                (65536 + (u - 55296) * 1024 + (u2 - 56320))%N
                                (scanstring fuel' s4)
                            else consumed u (scanstring fuel' s3)
                        end
                      else consumed u (scanstring fuel' s3)
                  end
                else
                  match unescape e with
                  | Some ch => consumed ch (scanstring fuel' s2)
                  | None => None
                  end
            end
          else if (c <? 32)%N then None
          else consumed c (scanstring fuel' s1)
      end
  end.

(** A run of decimal digits: its value, its length, and the text after it. *)
Fixpoint digits (acc : Z) (n : nat) (s : str) : Z * nat * str :=
  match s with
  | c :: s' =>
      if is_digit c then digits (acc * 10 + Z.of_N (c - 48)) (S n) s'
      else (acc, n, s)
  | [] => (acc, n, s)
  end.

(** A number: an optional minus, an integer part without leading zeros,
    an optional fraction (a point and digits), an optional exponent ([e] or
    [E], an optional sign, digits).  An [int] when there is neither
    fraction nor exponent, a [float] otherwise. *)
Definition match_number (s : str) : option (json * str) :=
  let negative := prefixb [45%N] s in
  let s0 := if negative then skipn 1 s else s in
  let sign := if negative then (-1)%Z else 1%Z in
  match s0 with
  | [] => None
  | c :: s1 =>
      if is_digit c then
        let '(int_part, _, s2) :=
          if (c =? 48)%N then (0%Z, 1, s1) else digits 0 0 s0 in
        let '(mant, frac_len, s3, has_frac) :=
          match s2 with
          | d :: (f :: _) as s2' =>
              if (d =? 46)%N && is_digit f then
                let '(m, n, r) := digits int_part 0 s2' in (m, n, r, true)
              else (int_part, 0, s2, false)
          | _ => (int_part, 0, s2, false)
          end in
        let '(expo, s4, has_exp) :=
          match s3 with
          | e :: s3' =>
              if ((e =? 101) || (e =? 69))%N then
                let signed := match s3' with
                              | g :: _ => ((g =? 45) || (g =? 43))%N
                              | [] => false
                              end in
                let minus := prefixb [45%N] s3' in
                let s3'' := if signed then skipn 1 s3' else s3' in
                match s3'' with
                | g :: _ =>
                    if is_digit g then
                      let '(x, _, r) := digits 0 0 s3'' in
                      ((if minus then - x else x)%Z, r, true)
                    else (0%Z, s3, false)
                | [] => (0%Z, s3, false)
                end
              else (0%Z, s3, false)
          | [] => (0%Z, s3, false)
          end in
        if has_frac || has_exp then
          Some (JFloat (FDec (sign * mant) (expo - Z.of_nat frac_len)), s4)
        else Some (JInt (sign * mant), s4)
      else None
  end.

(** One value ([scan_once]), the members of an object after its first
    blanks, and the items of an array after its first blanks. *)
Fixpoint parse_value (fuel : nat) (s : str) : option (json * str) :=
  match fuel with
  | O => None
  | S fuel' =>
      match s with
      | [] => None
      | c :: s1 =>
          if (c =? 34)%N then
            match scanstring (S (length s1)) s1 with
            | Some (x, rest) => Some (JStr x, rest)
            | None => None
            end
          else if (c =? 123)%N then
            match skip_blanks s1 with
            | d :: s2 =>
                if (d =? 125)%N then Some (JDict [], s2)
                else parse_members fuel' (d :: s2) []
            | [] => None
            end
          else if (c =? 91)%N then
            match skip_blanks s1 with
            | d :: s2 =>
                if (d =? 93)%N then Some (JList [], s2)
                else parse_items fuel' (d :: s2) []
            | [] => None
            end
          else if prefixb (py "null") s then Some (JNull, skipn 4 s)
          else if prefixb (py "true") s then Some (JBool true, skipn 4 s)
          else if prefixb (py "false") s then Some (JBool false, skipn 5 s)
          else if prefixb (py "NaN") s then Some (JFloat FNaN, skipn 3 s)
          else if prefixb (py "Infinity") s then
            Some (JFloat (FInf false), skipn 8 s)
          else if prefixb (py "-Infinity") s then
            Some (JFloat (FInf true), skipn 9 s)
          else match_number s
      end
  end
with parse_members (fuel : nat) (s : str) (acc : list (str * json))
  : option (json * str) :=
  match fuel with
  | O => None
  | S fuel' =>
      match s with
      | q :: s1 =>
          if (q =? 34)%N then
            match scanstring (S (length s1)) s1 with
            | Some (key, s2) =>
                match skip_blanks s2 with
                | colon :: s3 =>
                    if (colon =? 58)%N then
                      match parse_value fuel' (skip_blanks s3) with
                      | Some (v, s4) =>
                          let acc' := dict_set acc key v in
                          match skip_blanks s4 with
                          | d :: s5 =>
                              if (d =? 125)%N then Some (JDict acc', s5)
                              else if (d =? 44)%N then
                                parse_members fuel' (skip_blanks s5) acc'
                              else None
                          | [] => None
                          end
                      | None => None
                      end
                    else None
                | [] => None
                end
            | None => None
            end
          else None
      | [] => None
      end
  end
with parse_items (fuel : nat) (s : str) (acc : list json)
  : option (json * str) :=
  match fuel with
  | O => None
  | S fuel' =>
      match parse_value fuel' s with
      | Some (v, s1) =>
          match skip_blanks s1 with
          | d :: s2 =>
              if (d =? 93)%N then Some (JList (acc ++ [v]), s2)
              else if (d =? 44)%N then
                parse_items fuel' (skip_blanks s2) (acc ++ [v])
              else None
          | [] => None
          end
      | None => None
      end
  end.

Definition reference_json_loads (s : str) : loads_result :=
  match parse_value (2 * length s + 2) (skip_blanks s) with
  | Some (v, rest) =>
      match skip_blanks rest with
      | [] => Parsed v
      | _ :: _ => JSONDecodeError
      end
  | None => JSONDecodeError
  end.

(** The bytes of an ASCII literal. *)
Definition ascii_bytes (s : string) : bytes := list_byte_of_string s.

(** ** Reference notions the properties are stated with *)

(** The text with every [<think>...</think>] span removed, read off the
    stream as a whole: outside a span an opening marker starts one, inside
    a span the next closing marker ends it, and a span left open runs to
    the end.  [skip] counts the characters of a marker still to pass. *)
Fixpoint remove_spans_from (inside : bool) (skip : nat) (s : str) : str :=
  match s with
  | [] => []
  | c :: s' =>
      match skip with
      | S k => remove_spans_from inside k s'
      | O =>
          if inside then
            if prefixb close_tag s then remove_spans_from false 7 s'
            else remove_spans_from true 0 s'
          else
            if prefixb open_tag s then remove_spans_from true 6 s'
            else c :: remove_spans_from false 0 s'
      end
  end.

Definition remove_spans (s : str) : str := remove_spans_from false 0 s.

(** An occurrence of [pat] in [f ++ rest] begins inside [f]. *)
Fixpoint starts_within (pat f rest : str) : bool :=
  match f with
  | [] => false
  | _ :: f' => prefixb pat (f ++ rest) || starts_within pat f' rest
  end.

(** A stream whose markers fall in with its fragments.  Read in state
    [Normal], a fragment either holds no marker and no opening marker
    begins in it, or it holds an opening marker and nothing beginning after
    the first one closes it.  Read in state [InsideThinking], a fragment
    holds no opening marker, and either no closing marker begins in it, or
    it holds exactly one and no opening marker begins after that one. *)
Fixpoint framed (thinking_started : bool) (fragments : list str) : bool :=
  match fragments with
  | [] => true
  | f :: rest =>
      let after := concat rest in
      match thinking_started, index_of open_tag f, index_of close_tag f with
      | false, None, None =>
          negb (starts_within open_tag f after) && framed false rest
      | false, Some i, _ =>
          negb (starts_within close_tag
                  (skipn (i + length open_tag) f) after)
          && framed true rest
      | true, None, None =>
          negb (starts_within close_tag f after) && framed true rest
      | true, None, Some j =>
          let post := skipn (j + length close_tag) f in
          negb (occurs close_tag post)
          && negb (starts_within open_tag post after)
          && framed false rest
      | _, _, _ => false
      end
  end.

(** The markers of a text in the order they stand: [true] for an opening
    one, [false] for a closing one. *)
Fixpoint markers (s : str) : list bool :=
  match s with
  | [] => []
  | _ :: s' =>
      if prefixb open_tag s then true :: markers s'
      else if prefixb close_tag s then false :: markers s'
      else markers s'
  end.

Fixpoint alternating (expect_open : bool) (ms : list bool) : bool :=
  match ms with
  | [] => expect_open
  | m :: ms' => Bool.eqb m expect_open && alternating (negb expect_open) ms'
  end.

(** Zero or more well-formed spans: every opening marker is followed by
    its closing marker before the next opening one, and no closing marker
    stands alone. *)
Definition well_formed_spans (s : str) : bool := alternating true (markers s).

(** The content strictly between the first opening fence, with its
    optional [json] tag, and the next fence after it, trimmed; [None]
    when the text holds no such block. *)
Definition fenced_block (text : str) : option str :=
  match index_of fence text with
  | None => None
  | Some i =>
      let after_open := skipn (i + length fence) text in
      let body :=
        if prefixb json_tag after_open
        then skipn (length json_tag) after_open else after_open in
      match index_of fence body with
      | None => None
      | Some j => Some (strip (firstn j body))
      end
  end.

(** The character [c] does not stand in [s]. *)
Definition lacks (c : char) (s : str) : bool :=
  forallb (fun x => negb (char_eqb x c)) s.

(** A pattern whose first character stands nowhere else in it: two of its
    occurrences never overlap. *)
Definition unbordered (pat : str) : bool :=
  match pat with
  | [] => false
  | c :: tl => forallb (fun x => negb (char_eqb x c)) tl
  end.

(** The group a lazy [(.*?)] settles on before [\s*] and a fence: the
    shortest prefix after which only white space precedes a fence. *)
Fixpoint lazy_group (s : str) : option str :=
  if prefixb fence (lstrip s) then Some []
  else match s with
       | [] => None
       | c :: s' => option_map (cons c) (lazy_group s')
       end.

(** The lines of a text ([split] on a line feed, by structural recursion). *)
Fixpoint lines (s : str) : list str :=
  match s with
  | [] => [[]]
  | c :: s' =>
      if char_eqb c newline then [] :: lines s'
      else match lines s' with
           | l :: ls => (c :: l) :: ls
           | [] => [[c]]
           end
  end.

(** No line of the text is empty; [at_start] tells that a line begins
    here. *)
Fixpoint no_blank_line (at_start : bool) (s : str) : bool :=
  match s with
  | [] => negb at_start
  | c :: s' =>
      if char_eqb c newline then negb at_start && no_blank_line true s'
      else no_blank_line false s'
  end.

(** The text is empty or begins with a character that is not white
    space. *)
Definition starts_visible (s : str) : bool :=
  match s with
  | [] => true
  | c :: _ => negb (isspace c)
  end.

(** The fence example of the specification: a block tagged json around
    the text of an object with the one member x, and that text. *)
Definition json_example : str :=
  py "{" ++ [34%N] ++ py "x" ++ [34%N] ++ py ":1}".

Definition fenced_example : str :=
  py "```json" ++ [newline] ++ json_example ++ [newline] ++ py "```".

(** A text with two well-formed spans in which cutting out the first span
    joins the text around it into a closing marker. *)
Definition spliced_example : str :=
  py "</th<think>x</think>ink><think>y</think>".

(** The stream of the boundary example, and a stream with the same text
    whose markers are not split. *)
Definition split_marker_stream : list str :=
  [py "a<thi"; py "nk>secret</think>b"].

Definition whole_marker_stream : list str :=
  [py "a<think>"; py "sec"; py "ret"; py "</think>b"].

(** [b.isspace()] for one byte: the ASCII white space. *)
Definition byte_isspace (b : byte) : bool :=
  let n := Byte.to_N b in
  ((9 <=? n) && (n <=? 13) || (n =? 32))%N.


(** ** The rest of [proxy_api] *)

(** [clean_response_content] on whatever [data['response']] holds.  A
    value that is no [str] runs the same lines: a false one is returned
    as it is; on a true one the membership tests raise [TypeError] for a
    number or [True], and mean key or item membership for a [dict] or a
    [list], on which [find] and [split] raise [AttributeError].  [None]
    when the loop is not left within [fuel] rounds. *)
Definition clean_response_value (fuel : nat) (content : json)
  : option (result json) :=
  match content with
  | JStr s =>
      match clean_response_content fuel s with
      | Some cleaned => Some (ret (JStr cleaned))
      | None => None
      end
  | _ =>
      if negb (truthy content) then Some (ret content)
      else Some (
        opened <- contains open_tag content ;;
        closed <- (if opened : bool then contains close_tag content
                   else ret false) ;;
        if closed : bool then raise AttributeError
        else raise AttributeError)
  end.

(** What the non-streaming branch returns: the re-serialised record
    ([Response(json.dumps(data), mimetype='application/json')]) or the
    upstream body and status as they came
    ([Response(response.content, response.status_code)]). *)
Inductive reply :=
| JsonReply (data : json)
| UpstreamReply.

(** Lines 84-95, given what [response.json()] does: every exception inside
    the [try] block ends in the upstream reply.  [None] when the cleanup
    loop is not left within [fuel] rounds. *)
Definition non_streaming (fuel : nat) (parsed : loads_result)
  : option reply :=
  match parsed with
  | Parsed data =>
      match contains (py "response") data with
      | inl _ => Some UpstreamReply
      | inr false => Some (JsonReply data)
      | inr true =>
          match getitem data (py "response") with
          | inl _ => Some UpstreamReply
          | inr content =>
              match clean_response_value fuel content with
              | None => None
              | Some (inl _) => Some UpstreamReply
              | Some (inr cleaned) =>
                  match setitem data (py "response") cleaned with
                  | inl _ => Some UpstreamReply
                  | inr data' => Some (JsonReply data')
                  end
              end
          end
      end
  | JSONDecodeError | LoadsRaised _ => Some UpstreamReply
  end.

(** The character that begins both markers. *)
Definition angle : char := N_of_ascii "<".

(** A text written as its spans: each pair is the text before a span and
    the text inside it, and [tail] is the text after the last span. *)
Fixpoint spans_text (spans : list (str * str)) (tail : str) : str :=
  match spans with
  | [] => tail
  | (outside, inside) :: rest =>
      outside ++ open_tag ++ inside ++ close_tag ++ spans_text rest tail
  end.

(** None of the texts of the spans holds the character [c]. *)
Definition spans_lack (c : char) (spans : list (str * str)) : bool :=
  forallb (fun p => lacks c (fst p) && lacks c (snd p)) spans.



(** Two more lines: a completion marker without a [message], and a
    record whose [message] holds a role and the text [ok]. *)
Definition done_record : bytes :=
  ascii_bytes "{" ++ [Byte.x22] ++ ascii_bytes "done" ++ [Byte.x22]
  ++ ascii_bytes ":true}".

Definition answer_record : bytes :=
  ascii_bytes "{" ++ [Byte.x22] ++ ascii_bytes "message" ++ [Byte.x22]
  ++ ascii_bytes ":{" ++ [Byte.x22] ++ ascii_bytes "role" ++ [Byte.x22]
  ++ ascii_bytes ":" ++ [Byte.x22] ++ ascii_bytes "assistant" ++ [Byte.x22]
  ++ ascii_bytes "," ++ [Byte.x22] ++ ascii_bytes "content" ++ [Byte.x22]
  ++ ascii_bytes ":" ++ [Byte.x22] ++ ascii_bytes "ok" ++ [Byte.x22]
  ++ ascii_bytes "}," ++ [Byte.x22] ++ ascii_bytes "done" ++ [Byte.x22]
  ++ ascii_bytes ":false}".

(** The members of a reply of the [generate] endpoint whose [response]
    holds a span before its answer. *)
Definition generate_reply : list (str * json) :=
  [(py "model", JStr (py "deepseek-r1"));
   (py "response", JStr (py "<think>2+2</think> 4"));
   (py "done", JBool true)].

(** Case analysis on the value a [match] in [H] inspects. *)
Ltac break_match_in H :=
  match type of H with
  | context [match ?x with _ => _ end] => destruct x eqn:?
  end.

(** * Properties *)

(** ** Text *)

Lemma char_eqb_eq (a b : char) : char_eqb a b = true <-> a = b.
Proof. unfold char_eqb. apply N.eqb_eq. Qed.

Lemma char_eqb_refl (a : char) : char_eqb a a = true.
Proof. apply char_eqb_eq. reflexivity. Qed.

Lemma str_eqb_eq (a b : str) : str_eqb a b = true <-> a = b.
Proof.
  revert b. induction a as [|x a IH]; intros [|y b]; simpl; split;
    try reflexivity; try discriminate.
  - intros H. apply andb_true_iff in H. destruct H as [Hx Hab].
    apply char_eqb_eq in Hx. apply IH in Hab. congruence.
  - intros H. injection H as -> ->.
    rewrite char_eqb_refl. apply IH. reflexivity.
Qed.

Lemma prefixb_app (pat s : str) : prefixb pat (pat ++ s) = true.
Proof.
  induction pat as [|p pat IH]; simpl; [reflexivity|].
  rewrite char_eqb_refl. exact IH.
Qed.

Lemma prefixb_split (pat s : str) :
  prefixb pat s = true -> s = pat ++ skipn (length pat) s.
Proof.
  revert s. induction pat as [|p pat IH]; intros [|c s]; simpl;
    try reflexivity; try discriminate.
  intros H. apply andb_true_iff in H. destruct H as [Hc Hs].
  apply char_eqb_eq in Hc. subst c. f_equal. apply IH. exact Hs.
Qed.

Lemma prefixb_length (pat s : str) :
  prefixb pat s = true -> length pat <= length s.
Proof.
  intros H. rewrite (prefixb_split _ _ H) at 1.
  rewrite length_app. lia.
Qed.

(** A prefix test that succeeds on a text succeeds on every extension. *)
Lemma prefixb_extend (pat s r : str) :
  prefixb pat s = true -> prefixb pat (s ++ r) = true.
Proof.
  intros H. rewrite (prefixb_split _ _ H), <- app_assoc. apply prefixb_app.
Qed.

(** [index_of] finds an occurrence, and it is the first. *)
Lemma index_of_Some (pat s : str) (i : nat) :
  index_of pat s = Some i ->
  prefixb pat (skipn i s) = true /\ i <= length s
  /\ forall k, k < i -> prefixb pat (skipn k s) = false.
Proof.
  revert i. induction s as [|c s IH]; intros i.
  - simpl. destruct (prefixb pat []) eqn:E; [|discriminate].
    intros [= <-]. simpl. repeat split; [exact E | lia | intros; lia].
  - cbn [index_of]. destruct (prefixb pat (c :: s)) eqn:E.
    + intros [= <-]. repeat split; [exact E | simpl; lia | intros; lia].
    + destruct (index_of pat s) as [j|] eqn:Ej; [|discriminate].
      intros [= <-]. destruct (IH j eq_refl) as (H1 & H2 & H3).
      repeat split; [exact H1 | simpl; lia |].
      intros [|k] Hk; [exact E | apply H3; lia].
Qed.

Lemma index_of_None (pat s : str) :
  index_of pat s = None -> forall k, prefixb pat (skipn k s) = false.
Proof.
  induction s as [|c s IH]; simpl.
  - destruct (prefixb pat []) eqn:E; [discriminate|].
    intros _ [|k]; exact E.
  - destruct (prefixb pat (c :: s)) eqn:E; [discriminate|].
    destruct (index_of pat s) eqn:Ej; [discriminate|].
    intros _ [|k]; [exact E | apply IH; reflexivity].
Qed.

Lemma index_of_decompose (pat s : str) (i : nat) :
  index_of pat s = Some i ->
  s = firstn i s ++ pat ++ skipn (i + length pat) s.
Proof.
  intros H. destruct (index_of_Some _ _ _ H) as (Hp & _ & _).
  rewrite <- (firstn_skipn i s) at 1. f_equal.
  rewrite (prefixb_split _ _ Hp) at 1. f_equal.
  rewrite skipn_skipn. f_equal. lia.
Qed.

(** An occurrence anywhere makes [index_of] succeed, no later than it. *)
Lemma index_of_found (pat a b : str) :
  exists i, index_of pat (a ++ pat ++ b) = Some i /\ i <= length a.
Proof.
  induction a as [|c a IH].
  - exists 0. simpl app. split; [|simpl; lia].
    destruct (pat ++ b) eqn:E; simpl; rewrite <- ?E, prefixb_app; reflexivity.
  - cbn [app index_of]. destruct (prefixb pat (c :: a ++ pat ++ b)).
    + exists 0. split; [reflexivity | simpl; lia].
    + destruct IH as (i & -> & Hi). exists (S i). split; [reflexivity|].
      simpl. lia.
Qed.

Lemma occurs_app (pat a b : str) : occurs pat (a ++ pat ++ b) = true.
Proof.
  unfold occurs. destruct (index_of_found pat a b) as (i & -> & _).
  reflexivity.
Qed.

Lemma occurs_decompose (pat s : str) :
  occurs pat s = true -> exists a b, s = a ++ pat ++ b.
Proof.
  unfold occurs. destruct (index_of pat s) as [i|] eqn:E; [|discriminate].
  intros _. eexists _, _. apply (index_of_decompose _ _ _ E).
Qed.

(** A text that holds no occurrence has none in any of its parts. *)
Lemma occurs_false_part (pat a s b : str) :
  occurs pat (a ++ s ++ b) = false -> occurs pat s = false.
Proof.
  intros H. destruct (occurs pat s) eqn:E; [|reflexivity].
  destruct (occurs_decompose _ _ E) as (x & y & ->).
  rewrite <- H. symmetry.
  replace (a ++ (x ++ pat ++ y) ++ b) with ((a ++ x) ++ pat ++ (y ++ b))
    by (repeat rewrite <- app_assoc; reflexivity).
  apply occurs_app.
Qed.

Lemma occurs_false_prefixb (pat s : str) :
  occurs pat s = false -> prefixb pat s = false.
Proof.
  unfold occurs. destruct (index_of pat s) eqn:E; [discriminate|].
  intros _. apply (index_of_None _ _ E 0).
Qed.

Lemma occurs_false_tail (pat : str) (c : char) (s : str) :
  occurs pat (c :: s) = false -> occurs pat s = false.
Proof. intros H. apply (occurs_false_part pat [c] s []). rewrite app_nil_r. exact H. Qed.

Lemma prefixb_nil (pat : str) : prefixb pat [] = true -> pat = [].
Proof. destruct pat; [reflexivity | discriminate]. Qed.

Lemma occurs_nil (pat : str) : pat <> [] -> occurs pat [] = false.
Proof.
  intros Hne. unfold occurs. simpl.
  destruct (prefixb pat []) eqn:E; [|reflexivity].
  elim Hne. apply prefixb_nil. exact E.
Qed.

Lemma index_of_before (pat s : str) (i : nat) :
  pat <> [] -> index_of pat s = Some i -> occurs pat (firstn i s) = false.
Proof.
  intros Hne. revert i. induction s as [|c s IH]; intros i; cbn [index_of].
  - destruct (prefixb pat []) eqn:E; [|discriminate].
    intros [= <-]. apply occurs_nil. exact Hne.
  - destruct (prefixb pat (c :: s)) eqn:E.
    + intros [= <-]. apply occurs_nil. exact Hne.
    + destruct (index_of pat s) as [j|] eqn:Ej; [|discriminate].
      intros [= <-]. specialize (IH j eq_refl).
      unfold occurs in *. cbn [firstn index_of].
      destruct (prefixb pat (c :: firstn j s)) eqn:E2.
      * rewrite <- (firstn_skipn j s) in E.
        change (c :: firstn j s ++ skipn j s)
          with ((c :: firstn j s) ++ skipn j s) in E.
        rewrite (prefixb_extend _ _ _ E2) in E. discriminate.
      * destruct (index_of pat (firstn j s)); [discriminate | reflexivity].
Qed.

Lemma headless_prefix (c : char) (tl x r : str) :
  forallb (fun y => negb (char_eqb y c)) tl = true ->
  prefixb tl (x ++ c :: r) = prefixb tl x.
Proof.
  revert x. induction tl as [|t tl IH]; intros x H; [destruct x; reflexivity|].
  simpl in H. apply andb_true_iff in H. destruct H as [Ht Htl].
  destruct x as [|y x]; simpl.
  - apply negb_true_iff in Ht. rewrite Ht. reflexivity.
  - rewrite IH by exact Htl. reflexivity.
Qed.

Lemma unbordered_nonempty (pat : str) : unbordered pat = true -> pat <> [].
Proof. destruct pat; [discriminate | discriminate]. Qed.

(** Before an occurrence of an unbordered pattern, a test at an earlier
    place reads nothing of that occurrence. *)
Lemma unbordered_prefix (pat x r : str) :
  unbordered pat = true -> x <> [] ->
  prefixb pat (x ++ pat ++ r) = prefixb pat x.
Proof.
  destruct pat as [|c tl]; [discriminate|]. intros H Hx.
  destruct x as [|y x]; [contradiction|]. simpl.
  rewrite headless_prefix by exact H. reflexivity.
Qed.

Lemma index_of_first (pat a b : str) :
  unbordered pat = true -> occurs pat a = false ->
  index_of pat (a ++ pat ++ b) = Some (length a).
Proof.
  intros Hu. induction a as [|c a IH]; intros Ha.
  - simpl app. destruct (pat ++ b) eqn:E; simpl;
      rewrite <- ?E, prefixb_app; reflexivity.
  - change ((c :: a) ++ pat ++ b) with (c :: (a ++ pat ++ b)).
    cbn [index_of].
    change (c :: (a ++ pat ++ b)) with ((c :: a) ++ pat ++ b).
    rewrite unbordered_prefix by (exact Hu || discriminate).
    rewrite (occurs_false_prefixb _ _ Ha).
    rewrite IH by (apply (occurs_false_tail _ _ _ Ha)). reflexivity.
Qed.

Lemma skipn_app_plus (a l : str) (n : nat) :
  skipn (length a + n) (a ++ l) = skipn n l.
Proof. induction a; simpl; auto. Qed.

Lemma skipn_app_exact (a l : str) : skipn (length a) (a ++ l) = l.
Proof. induction a; simpl; auto. Qed.

Lemma firstn_app_exact (a l : str) : firstn (length a) (a ++ l) = a.
Proof. induction a; simpl; [reflexivity | f_equal; auto]. Qed.

Lemma index_of_nonempty (sep s : str) (i : nat) :
  sep <> [] -> index_of sep s = Some i -> i + length sep <= length s.
Proof.
  intros Hne H. destruct (index_of_Some _ _ _ H) as (Hp & Hi & _).
  apply prefixb_length in Hp. rewrite length_skipn in Hp. lia.
Qed.

Lemma split_fuel_any (sep : str) (fuel1 fuel2 : nat) (s : str) :
  sep <> [] -> length s <= fuel1 -> length s <= fuel2 ->
  split_fuel fuel1 sep s = split_fuel fuel2 sep s.
Proof.
  intros Hne. revert fuel2 s.
  induction fuel1 as [|fuel1 IH]; intros fuel2 s H1 H2;
    destruct fuel2 as [|fuel2]; cbn [split_fuel];
    destruct (index_of sep s) as [i|] eqn:E; try reflexivity;
    pose proof (index_of_nonempty _ _ _ Hne E) as Hi;
    assert (0 < length sep) by (destruct sep; [contradiction | simpl; lia]);
    try lia.
  f_equal. apply IH; rewrite length_skipn; lia.
Qed.

Lemma split_fuel_enough (fuel : nat) (sep s : str) :
  sep <> [] -> length s <= fuel -> split_fuel fuel sep s = split sep s.
Proof. intros. apply split_fuel_any; auto. Qed.

Lemma split_unfold (sep s : str) :
  sep <> [] ->
  split sep s =
  match index_of sep s with
  | None => [s]
  | Some i => firstn i s :: split sep (skipn (i + length sep) s)
  end.
Proof.
  intros Hne. unfold split at 1. destruct (index_of sep s) as [i|] eqn:E.
  - pose proof (index_of_nonempty _ _ _ Hne E) as Hi.
    assert (0 < length sep) by (destruct sep; [contradiction | simpl; lia]).
    destruct (length s) as [|n] eqn:El; [lia|].
    cbn [split_fuel]. rewrite E. f_equal.
    apply split_fuel_enough; [exact Hne|]. rewrite length_skipn. lia.
  - destruct (length s); cbn [split_fuel]; rewrite E; reflexivity.
Qed.

Lemma hd_split (sep s : str) (i : nat) :
  sep <> [] -> index_of sep s = Some i -> hd [] (split sep s) = firstn i s.
Proof. intros Hne E. rewrite split_unfold, E by exact Hne. reflexivity. Qed.

Lemma split_nonempty (sep s : str) : sep <> [] -> split sep s <> [].
Proof.
  intros Hne. rewrite split_unfold by exact Hne.
  destruct (index_of sep s); discriminate.
Qed.

(** The last piece of a split on an unbordered separator is what follows
    its last occurrence. *)
Lemma last_split (sep pre post : str) :
  unbordered sep = true -> occurs sep post = false ->
  last (split sep (pre ++ sep ++ post)) [] = post.
Proof.
  intros Hu Hpost. pose proof (unbordered_nonempty _ Hu) as Hne.
  remember (length pre) as n eqn:Hn. revert pre Hn.
  induction n as [n IH] using lt_wf_ind. intros pre ->.
  rewrite split_unfold by exact Hne.
  destruct (index_of_found sep pre post) as (i & E & Hi). rewrite E.
  destruct (index_of_Some _ _ _ E) as (Hp & _ & _).
  assert (Hpieces : forall l : list str, l <> [] ->
            forall a : str, last (a :: l) [] = last l []).
  { intros l Hl a. destruct l; [contradiction | reflexivity]. }
  rewrite Hpieces by (apply split_nonempty; exact Hne).
  destruct (Nat.eq_dec i (length pre)) as [->|Hlt].
  - replace (skipn (length pre + length sep) (pre ++ sep ++ post)) with post.
    + rewrite split_unfold by exact Hne.
      unfold occurs in Hpost.
      destruct (index_of sep post); [discriminate | reflexivity].
    + rewrite skipn_app_plus, skipn_app_exact. reflexivity.
  - assert (Hi' : i < length pre) by lia.
    rewrite skipn_app in Hp.
    replace (i - length pre) with 0 in Hp by lia. simpl skipn in Hp.
    rewrite unbordered_prefix in Hp
      by (exact Hu || (intros Hx; apply (f_equal (@length _)) in Hx;
                       rewrite length_skipn in Hx; simpl in Hx; lia)).
    apply prefixb_length in Hp. rewrite length_skipn in Hp.
    rewrite skipn_app.
    replace (i + length sep - length pre) with 0 by lia. simpl skipn.
    apply (IH (length (skipn (i + length sep) pre))); [|reflexivity].
    rewrite length_skipn.
    assert (0 < length sep) by (destruct sep; [contradiction | simpl; lia]).
    lia.
Qed.

(** ** White space *)

Lemma lstrip_blank (s : str) : forallb isspace s = true -> lstrip s = [].
Proof.
  induction s as [|c s IH]; simpl; [reflexivity|].
  intros H. apply andb_true_iff in H. destruct H as [-> Hs]. auto.
Qed.

Lemma strip_blank (s : str) : forallb isspace s = true -> strip s = [].
Proof. intros H. unfold strip. rewrite lstrip_blank by exact H. reflexivity. Qed.

Lemma is_empty_content_blank (s : str) :
  forallb isspace s = true -> is_empty_content s = true.
Proof.
  intros H. destruct s as [|c s]; [reflexivity|].
  unfold is_empty_content. rewrite strip_blank by exact H. reflexivity.
Qed.

(** No pattern that begins with a visible character occurs in white space. *)
Lemma occurs_blank (c : char) (tl s : str) :
  isspace c = false -> forallb isspace s = true -> occurs (c :: tl) s = false.
Proof.
  intros Hc. unfold occurs. induction s as [|x s IH]; intros H.
  - reflexivity.
  - simpl in H. apply andb_true_iff in H. destruct H as [Hx Hs].
    cbn [index_of prefixb].
    destruct (char_eqb c x) eqn:E.
    + apply char_eqb_eq in E. subst x. congruence.
    + simpl. specialize (IH Hs).
      destruct (index_of (c :: tl) s); [discriminate | reflexivity].
Qed.

(** ** The tag filter *)

Lemma unwrap_fence_no_fence (text : str) :
  occurs fence text = false -> unwrap_fence text = text.
Proof. intros H. unfold unwrap_fence. rewrite H. reflexivity. Qed.

Lemma process_unwrapped (text : str) (st : bool) :
  process_thinking_content text st = filter_tags (unwrap_fence text) st.
Proof. destruct text; [destruct st|]; reflexivity. Qed.

Lemma filter_tags_plain (text : str) (st : bool) :
  occurs open_tag text = false -> occurs close_tag text = false ->
  filter_tags text st = ((if st then [] else text), st).
Proof.
  intros Ho Hc. unfold filter_tags. rewrite Ho, Hc. destruct st; reflexivity.
Qed.

Lemma filter_tags_open (pre post : str) (st : bool) :
  occurs open_tag pre = false ->
  filter_tags (pre ++ open_tag ++ post) st = (pre, InsideThinking).
Proof.
  intros Hpre. unfold filter_tags. rewrite occurs_app.
  rewrite (hd_split _ _ (length pre)).
  - rewrite firstn_app_exact. reflexivity.
  - discriminate.
  - apply index_of_first; [reflexivity | exact Hpre].
Qed.

Lemma filter_tags_close (pre post : str) (st : bool) :
  occurs open_tag (pre ++ close_tag ++ post) = false ->
  occurs close_tag post = false ->
  filter_tags (pre ++ close_tag ++ post) st = (post, Normal).
Proof.
  intros Hopen Hpost. unfold filter_tags. rewrite Hopen, occurs_app.
  rewrite last_split by (reflexivity || exact Hpost). reflexivity.
Qed.

(** C3, as the code has it: on empty input the filter retains nothing and
    keeps the state; on input of white space only it keeps the state and
    retains nothing in state InsideThinking, but the input itself in
    state Normal, which [is_empty_content] then counts as empty.  The
    filter is a total function of its text and state. *)
Theorem blank_input_keeps_state (text : str) (st : bool) :
  forallb isspace text = true ->
  process_thinking_content text st = ((if st then [] else text), st)
  /\ is_empty_content (fst (process_thinking_content text st)) = true
  /\ process_thinking_content [] st = ([], st).
Proof.
  intros Hblank.
  assert (E : process_thinking_content text st
              = ((if st then [] else text), st)).
  { rewrite process_unwrapped, unwrap_fence_no_fence
      by (apply occurs_blank; [reflexivity | exact Hblank]).
    apply filter_tags_plain; apply occurs_blank;
      (reflexivity || exact Hblank). }
  rewrite E. repeat split.
  destruct st; [reflexivity | apply is_empty_content_blank; exact Hblank].
Qed.

Lemma blank_input_keeps_state_witness :
  forallb isspace (py "  ") = true
  /\ process_thinking_content (py "  ") Normal = (py "  ", Normal)
  /\ process_thinking_content (py "  ") InsideThinking = ([], InsideThinking).
Proof.
  split; [reflexivity|]. split.
  - apply (blank_input_keeps_state (py "  ") Normal). reflexivity.
  - apply (blank_input_keeps_state (py "  ") InsideThinking). reflexivity.
Defined.

(** C3 as stated fails: in state Normal a single blank is retained. *)
Lemma blank_input_is_retained :
  forallb isspace (py " ") = true
  /\ process_thinking_content (py " ") Normal = (py " ", Normal)
  /\ py " " <> [].
Proof. repeat split. discriminate. Qed.

(** C4, as the code has it: when the text left by the fence clean-up holds
    an opening marker, the filter retains what precedes the first one,
    enters InsideThinking, and drops everything after it, a closing marker
    and whatever follows it included.  A text without a fence is left as
    it is by the clean-up. *)
Theorem opening_marker_enters_thinking (text pre post : str) (st : bool) :
  unwrap_fence text = pre ++ open_tag ++ post ->
  occurs open_tag pre = false ->
  process_thinking_content text st = (pre, InsideThinking)
  /\ (occurs fence text = false -> text = pre ++ open_tag ++ post).
Proof.
  intros Htext Hpre. split.
  - rewrite process_unwrapped, Htext. apply filter_tags_open. exact Hpre.
  - intros Hf. rewrite <- Htext. symmetry. apply unwrap_fence_no_fence.
    exact Hf.
Qed.

Lemma opening_marker_enters_thinking_witness :
  process_thinking_content (py "a<think>b</think>c") Normal
  = (py "a", InsideThinking).
Proof.
  apply (opening_marker_enters_thinking (py "a<think>b</think>c")
           (py "a") (py "b</think>c") Normal); reflexivity.
Defined.

(** C4 as stated fails: an opening marker outside a fenced block is
    dropped with the rest of the text around the block, and the state
    stays Normal. *)
Lemma opening_marker_outside_fence :
  occurs open_tag (py "```x```<think>") = true
  /\ process_thinking_content (py "```x```<think>") Normal
     = (py "x", Normal).
Proof. split; reflexivity. Qed.

(** C5, as the code has it: when the text left by the fence clean-up holds
    no opening marker but a closing one, the filter retains what follows
    the last closing marker and the state becomes Normal, whatever it
    was. *)
Theorem closing_marker_leaves_thinking (text pre post : str) (st : bool) :
  unwrap_fence text = pre ++ close_tag ++ post ->
  occurs open_tag (unwrap_fence text) = false ->
  occurs close_tag post = false ->
  process_thinking_content text st = (post, Normal)
  /\ (occurs fence text = false -> text = pre ++ close_tag ++ post).
Proof.
  intros Htext Hopen Hpost. split.
  - rewrite process_unwrapped. rewrite Htext in *.
    apply filter_tags_close; assumption.
  - intros Hf. rewrite <- Htext. symmetry. apply unwrap_fence_no_fence.
    exact Hf.
Qed.

Lemma closing_marker_leaves_thinking_witness :
  process_thinking_content (py "a</think>b</think>c") InsideThinking
  = (py "c", Normal).
Proof.
  apply (closing_marker_leaves_thinking (py "a</think>b</think>c")
           (py "a</think>b") (py "c") InsideThinking); reflexivity.
Defined.

(** C5 as stated fails: a closing marker outside a fenced block never
    reaches the marker rules, and state InsideThinking is kept. *)
Lemma closing_marker_outside_fence :
  occurs open_tag (py "```x```</think>") = false
  /\ occurs close_tag (py "```x```</think>") = true
  /\ process_thinking_content (py "```x```</think>") InsideThinking
     = ([], InsideThinking).
Proof. repeat split; reflexivity. Qed.

(** ** Trimming *)

Lemma lstrip_starts_visible (s : str) : starts_visible (lstrip s) = true.
Proof.
  induction s as [|c s IH]; simpl; [reflexivity|].
  destruct (isspace c) eqn:E; [exact IH | simpl; rewrite E; reflexivity].
Qed.

Lemma lstrip_visible (s : str) : starts_visible s = true -> lstrip s = s.
Proof.
  destruct s as [|c s]; simpl; [reflexivity|].
  intros H. apply negb_true_iff in H. rewrite H. reflexivity.
Qed.

Lemma rstrip_starts_visible (s : str) :
  starts_visible s = true -> starts_visible (rstrip s) = true.
Proof.
  destruct s as [|c s]; simpl; [reflexivity|]. intros H.
  destruct (rstrip s); simpl; [|exact H].
  apply negb_true_iff in H. rewrite H. simpl. rewrite H. reflexivity.
Qed.

Lemma rstrip_cons (c : char) (s : str) :
  rstrip (c :: s) =
  match rstrip s with
  | [] => if isspace c then [] else [c]
  | t => c :: t
  end.
Proof. reflexivity. Qed.

Lemma rstrip_rstrip (s : str) : rstrip (rstrip s) = rstrip s.
Proof.
  induction s as [|c s IH]; [reflexivity|].
  rewrite rstrip_cons. destruct (rstrip s) as [|t ts] eqn:E.
  - destruct (isspace c) eqn:Ec; simpl; [reflexivity | rewrite Ec; reflexivity].
  - rewrite rstrip_cons, IH. reflexivity.
Qed.

Lemma strip_strip (s : str) : strip (strip s) = strip s.
Proof.
  unfold strip.
  rewrite (lstrip_visible (rstrip (lstrip s)))
    by (apply rstrip_starts_visible, lstrip_starts_visible).
  apply rstrip_rstrip.
Qed.

Lemma rstrip_nil_blank (s : str) : rstrip s = [] -> forallb isspace s = true.
Proof.
  induction s as [|c s IH]; simpl; [reflexivity|].
  destruct (rstrip s) eqn:E; [|discriminate].
  destruct (isspace c); [|discriminate]. intros _. apply IH. reflexivity.
Qed.

Lemma lstrip_app_blank (a b : str) :
  forallb isspace a = true -> lstrip (a ++ b) = lstrip b.
Proof.
  induction a as [|c a IH]; simpl; [reflexivity|].
  intros H. apply andb_true_iff in H. destruct H as [-> Ha]. auto.
Qed.

(** ** The fence pattern *)

Lemma blank_not_backtick (c : char) (s : str) :
  isspace c = true -> prefixb fence (c :: s) = false.
Proof.
  intros Hc. cbn [fence py map list_ascii_of_string prefixb].
  destruct (char_eqb (N_of_ascii "`") c) eqn:E; [|reflexivity].
  apply char_eqb_eq in E. subst c. discriminate.
Qed.

(** After the group, [\s*] must read all the white space there is: only
    then can a fence follow. *)
Lemma closing_fence_eq (g s : str) :
  closing_fence g s = if prefixb fence (lstrip s) then [g] else [].
Proof.
  unfold closing_fence. induction s as [|c s IH].
  - reflexivity.
  - cbn [ws_greedy lstrip]. destruct (isspace c) eqn:Ec.
    + rewrite flat_map_app, IH. cbn [flat_map]. unfold lit.
      rewrite blank_not_backtick by exact Ec. simpl. apply app_nil_r.
    + cbn [flat_map]. unfold lit.
      destruct (prefixb fence (c :: s)); reflexivity.
Qed.

Lemma flat_map_cons_group (c : char) (l : list (str * str)) :
  flat_map (fun gr => closing_fence (fst gr) (snd gr))
           (map (fun gr => (c :: fst gr, snd gr)) l)
  = map (cons c) (flat_map (fun gr => closing_fence (fst gr) (snd gr)) l).
Proof.
  induction l as [|[g r] l IH]; [reflexivity|].
  cbn [map flat_map fst snd]. rewrite map_app, IH. f_equal.
  rewrite !closing_fence_eq. destruct (prefixb fence (lstrip r)); reflexivity.
Qed.

Lemma hd_error_map {A B : Type} (f : A -> B) (l : list A) :
  hd_error (map f l) = option_map f (hd_error l).
Proof. destruct l; reflexivity. Qed.

(** The lazy group stops at the first place from which only white space
    precedes a fence. *)
Lemma group_to_close_first (s : str) :
  hd_error (group_to_close s) = lazy_group s.
Proof.
  unfold group_to_close. induction s as [|c s IH].
  - reflexivity.
  - cbn [any_lazy flat_map fst snd lazy_group].
    rewrite closing_fence_eq.
    destruct (prefixb fence (lstrip (c :: s))); [reflexivity|].
    cbn [app]. rewrite flat_map_cons_group, hd_error_map.
    f_equal. exact IH.
Qed.

Lemma ws_greedy_head (s : str) : exists l, ws_greedy s = lstrip s :: l.
Proof.
  induction s as [|c s [l IH]]; [exists []; reflexivity|].
  cbn [ws_greedy lstrip]. destruct (isspace c).
  - rewrite IH. eexists. reflexivity.
  - eexists. reflexivity.
Qed.

Lemma hd_error_app_some {A : Type} (l l' : list A) (a : A) :
  hd_error l = Some a -> hd_error (l ++ l') = Some a.
Proof. destruct l; [discriminate | auto]. Qed.

Lemma blanks_to_close_first (s g : str) :
  lazy_group (lstrip s) = Some g -> hd_error (blanks_to_close s) = Some g.
Proof.
  intros H. unfold blanks_to_close.
  destruct (ws_greedy_head s) as [l ->]. cbn [flat_map].
  apply hd_error_app_some. rewrite group_to_close_first. exact H.
Qed.

Lemma lazy_group_unfold (s : str) :
  lazy_group s =
  if prefixb fence (lstrip s) then Some []
  else match s with
       | [] => None
       | c :: s' => option_map (cons c) (lazy_group s')
       end.
Proof. destruct s; reflexivity. Qed.

(** Up to the first fence, the lazy group is the text without its
    trailing white space. *)
Lemma lazy_group_first_fence (v tail : str) :
  index_of fence (v ++ fence ++ tail) = Some (length v) ->
  lazy_group (v ++ fence ++ tail) = Some (rstrip v).
Proof.
  induction v as [|c v IH]; intros Hfirst.
  - reflexivity.
  - change ((c :: v) ++ fence ++ tail) with (c :: (v ++ fence ++ tail)) in *.
    cbn [index_of length] in Hfirst.
    destruct (prefixb fence (c :: v ++ fence ++ tail)) eqn:E; [discriminate|].
    destruct (index_of fence (v ++ fence ++ tail)) as [j|] eqn:Ej;
      [|discriminate].
    injection Hfirst as ->. specialize (IH eq_refl).
    cbn [lazy_group lstrip rstrip].
    destruct (isspace c) eqn:Ec.
    + pose proof IH as IH'. rewrite lazy_group_unfold in IH'.
      destruct (prefixb fence (lstrip (v ++ fence ++ tail))) eqn:El.
      * injection IH' as <-. reflexivity.
      * rewrite IH. cbn [option_map].
        destruct (rstrip v) eqn:Er; [|reflexivity].
        rewrite lstrip_app_blank in El by (apply rstrip_nil_blank, Er).
        discriminate.
    + rewrite E, IH. cbn [option_map]. destruct (rstrip v); reflexivity.
Qed.

Lemma index_of_lstrip (u r : str) :
  index_of fence (u ++ r) = Some (length u) ->
  index_of fence (lstrip u ++ r) = Some (length (lstrip u)).
Proof.
  induction u as [|c u IH]; intros H; [exact H|].
  cbn [lstrip]. destruct (isspace c) eqn:Ec; [|exact H].
  change ((c :: u) ++ r) with (c :: (u ++ r)) in H. cbn [index_of length] in H.
  rewrite blank_not_backtick in H by exact Ec.
  destruct (index_of fence (u ++ r)) as [j|]; [|discriminate].
  injection H as ->. apply IH. reflexivity.
Qed.

Lemma lstrip_app_fence (u tail : str) :
  lstrip (u ++ fence ++ tail) = lstrip u ++ fence ++ tail.
Proof.
  induction u as [|c u IH]; [reflexivity|].
  cbn [app lstrip]. destruct (isspace c); [exact IH | reflexivity].
Qed.

(** From the text after the opening fence and its tag, the pattern goes
    on to the first fence there and reports what stands between,
    trimmed. *)
Lemma blanks_to_close_body (body : str) (j : nat) :
  index_of fence body = Some j ->
  hd_error (blanks_to_close body) = Some (strip (firstn j body)).
Proof.
  intros Hj. apply blanks_to_close_first.
  pose proof (index_of_decompose _ _ _ Hj) as Hbody.
  set (u := firstn j body) in *.
  set (tail := skipn (j + length fence) body) in *.
  assert (Hlen : length u = j).
  { unfold u. apply firstn_length_le. apply (index_of_Some _ _ _ Hj). }
  rewrite Hbody in Hj |- *. rewrite <- Hlen in Hj.
  rewrite lstrip_app_fence. unfold strip.
  apply lazy_group_first_fence, index_of_lstrip. exact Hj.
Qed.

Lemma fence_matches_at_block (t : str) (j : nat) :
  prefixb fence t = true ->
  let after_open := skipn (length fence) t in
  let body := if prefixb json_tag after_open
              then skipn (length json_tag) after_open else after_open in
  index_of fence body = Some j ->
  hd_error (fence_matches_at t) = Some (strip (firstn j body)).
Proof.
  intros Hp after_open body Hj.
  unfold fence_matches_at, lit. rewrite Hp. cbn [flat_map].
  rewrite app_nil_r. fold after_open.
  unfold tag_to_close, opt_json, lit. subst body.
  destruct (prefixb json_tag after_open); cbn [app flat_map];
    apply hd_error_app_some, blanks_to_close_body; exact Hj.
Qed.

Lemma re_search_fence_at (text : str) (i : nat) (g : str) :
  index_of fence text = Some i ->
  hd_error (fence_matches_at (skipn i text)) = Some g ->
  re_search_fence text = Some g.
Proof.
  revert i. induction text as [|c text IH]; intros i; [discriminate|].
  cbn [index_of]. destruct (prefixb fence (c :: text)) eqn:E.
  - intros [= <-]. cbn [skipn re_search_fence].
    destruct (fence_matches_at (c :: text)); [discriminate|].
    intros [= ->]. reflexivity.
  - destruct (index_of fence text) as [k|] eqn:Ek; [|discriminate].
    intros [= <-]. cbn [skipn re_search_fence]. intros Hg.
    unfold fence_matches_at at 1, lit. rewrite E. cbn [flat_map].
    apply (IH k); [reflexivity | exact Hg].
Qed.

(** The fence clean-up finds the block the reference notion describes. *)
Lemma unwrap_fenced_block (text content : str) :
  fenced_block text = Some content -> unwrap_fence text = content.
Proof.
  unfold fenced_block, unwrap_fence, occurs.
  destruct (index_of fence text) as [i|] eqn:Ei; [|discriminate].
  destruct (index_of_Some _ _ _ Ei) as (Hp & _ & _).
  pose proof (fence_matches_at_block (skipn i text)) as Hblock.
  cbv zeta in Hblock. rewrite skipn_skipn in Hblock.
  rewrite (Nat.add_comm (length fence) i) in Hblock.
  cbv zeta.
  set (body := if prefixb json_tag (skipn (i + length fence) text)
               then _ else _) in *.
  destruct (index_of fence body) as [j|] eqn:Ej; [|discriminate].
  intros Hc. injection Hc as <-.
  rewrite (re_search_fence_at text i _ Ei (Hblock j Hp eq_refl)).
  apply strip_strip.
Qed.

(** C7, as the code has it: when the text holds a complete fenced block,
    the filter replaces the text by the content strictly between the first
    opening fence (with its optional json tag) and the next fence,
    trimmed, and applies the marker rules to that content; when the
    content holds neither marker and the state is Normal, the content is
    the retained text and the state stays Normal. *)
Theorem fence_unwrap (text content : str) (st : bool) :
  fenced_block text = Some content ->
  process_thinking_content text st = filter_tags content st
  /\ (occurs open_tag content = false -> occurs close_tag content = false ->
      process_thinking_content text Normal = (content, Normal)).
Proof.
  intros Hblock.
  assert (E : forall st', process_thinking_content text st'
                          = filter_tags content st').
  { intros st'. rewrite process_unwrapped.
    rewrite (unwrap_fenced_block _ _ Hblock). reflexivity. }
  split; [apply E|].
  intros Ho Hc. rewrite E. apply filter_tags_plain; assumption.
Qed.

Lemma fence_unwrap_witness :
  fenced_block fenced_example = Some json_example
  /\ process_thinking_content fenced_example Normal = (json_example, Normal).
Proof.
  split; [reflexivity|].
  apply (fence_unwrap fenced_example json_example Normal); reflexivity.
Defined.

(** C7 as stated fails: a marker inside the fenced block is acted on, so
    the retained text is not the content between the fences and the state
    does not stay Normal. *)
Lemma fenced_marker_is_filtered :
  fenced_block (py "```<think>```") = Some (py "<think>")
  /\ process_thinking_content (py "```<think>```") Normal
     = ([], InsideThinking).
Proof. split; reflexivity. Qed.

(** ** The non-streaming cleanup *)

(** A text on which a round of the loop changes nothing while the
    condition holds is never left. *)
Lemma strip_spans_stuck (content : str) :
  has_span content = true -> strip_first_span content = content ->
  forall fuel, strip_spans fuel content = None.
Proof.
  intros Hc Hfix fuel. induction fuel as [|fuel IH]; cbn [strip_spans];
    rewrite Hc; [reflexivity|]. rewrite Hfix. exact IH.
Qed.

(** C2 fails on the code: on the text [</think><think>] the first closing
    marker ends where the first opening marker begins, a round of the loop
    cuts out nothing, and no number of rounds leaves the loop. *)
Theorem cleanup_never_returns :
  strip_first_span (py "</think><think>") = py "</think><think>"
  /\ forall fuel, clean_response_content fuel (py "</think><think>") = None.
Proof.
  split; [reflexivity|]. intros fuel.
  change (clean_response_content fuel (py "</think><think>"))
    with (match strip_spans fuel (py "</think><think>") with
          | Some stripped => Some (strip (collapse_newlines stripped))
          | None => None
          end).
  rewrite strip_spans_stuck; reflexivity.
Qed.

(** C6 fails on the code: the text below holds two well-formed spans, yet
    cutting out the first joins the text around it into a closing marker
    that precedes the second span, and the loop is never left. *)
Theorem cleanup_diverges_after_splice :
  well_formed_spans spliced_example = true
  /\ strip_first_span spliced_example = py "</think><think>y</think>"
  /\ forall fuel, clean_response_content fuel spliced_example = None.
Proof.
  split; [reflexivity|]. split; [reflexivity|]. intros fuel.
  change (clean_response_content fuel spliced_example)
    with (match strip_spans fuel spliced_example with
          | Some stripped => Some (strip (collapse_newlines stripped))
          | None => None
          end).
  destruct fuel as [|fuel]; [reflexivity|].
  change (strip_spans (S fuel) spliced_example)
    with (strip_spans fuel (py "</think><think>y</think>")).
  rewrite strip_spans_stuck; reflexivity.
Qed.

(** *** Lines *)

Lemma lines_nonempty (s : str) : lines s <> [].
Proof.
  destruct s as [|c s]; [discriminate|]. simpl.
  destruct (char_eqb c newline); [discriminate|].
  destruct (lines s); discriminate.
Qed.

Lemma lines_plain (c : char) (s : str) :
  char_eqb c newline = false ->
  lines (c :: s) = (c :: hd [] (lines s)) :: tl (lines s).
Proof.
  intros H. simpl. rewrite H. pose proof (lines_nonempty s).
  destruct (lines s); [contradiction | reflexivity].
Qed.

Lemma index_of_newline (c : char) (s : str) :
  index_of [newline] (c :: s) =
  if char_eqb c newline then Some 0
  else option_map S (index_of [newline] s).
Proof.
  cbn [index_of prefixb]. unfold char_eqb. rewrite N.eqb_sym.
  destruct (c =? newline)%N; reflexivity.
Qed.

(** [split] on a line feed yields the lines. *)
Lemma split_newline (s : str) : split [newline] s = lines s.
Proof.
  induction s as [|c s IH]; [reflexivity|].
  rewrite split_unfold by discriminate. rewrite index_of_newline.
  destruct (char_eqb c newline) eqn:E.
  - simpl. rewrite E. f_equal. exact IH.
  - rewrite lines_plain by exact E. rewrite <- IH.
    rewrite split_unfold by discriminate.
    destruct (index_of [newline] s) as [i|]; reflexivity.
Qed.

Lemma join_cons (sep p : str) (q : str) (rest : list str) :
  join sep (p :: q :: rest) = p ++ sep ++ join sep (q :: rest).
Proof. reflexivity. Qed.

Lemma lines_of_plain (l : str) : lacks newline l = true -> lines l = [l].
Proof.
  induction l as [|c l IH]; [reflexivity|]. unfold lacks. cbn [forallb].
  intros H. apply andb_true_iff in H. destruct H as [Hc Hl].
  apply negb_true_iff in Hc. rewrite lines_plain by exact Hc.
  rewrite IH by exact Hl. reflexivity.
Qed.

Lemma lines_app_newline (l rest : str) :
  lacks newline l = true -> lines (l ++ newline :: rest) = l :: lines rest.
Proof.
  induction l as [|c l IH].
  - reflexivity.
  - unfold lacks. simpl forallb. intros H. apply andb_true_iff in H.
    destruct H as [Hc Hl]. apply negb_true_iff in Hc.
    change ((c :: l) ++ newline :: rest) with (c :: (l ++ newline :: rest)).
    rewrite lines_plain by exact Hc. rewrite IH by exact Hl. reflexivity.
Qed.

Lemma lines_join (ls : list str) :
  ls <> [] -> forallb (lacks newline) ls = true ->
  lines (join [newline] ls) = ls.
Proof.
  induction ls as [|l ls IH]; [contradiction|]. intros _ H.
  simpl in H. apply andb_true_iff in H. destruct H as [Hl Hls].
  destruct ls as [|q ls].
  - apply lines_of_plain. exact Hl.
  - rewrite join_cons. cbn [app]. rewrite lines_app_newline by exact Hl.
    f_equal. apply IH; [discriminate | exact Hls].
Qed.

Lemma lines_lack_newline (s : str) : forallb (lacks newline) (lines s) = true.
Proof.
  induction s as [|c s IH]; [reflexivity|].
  destruct (char_eqb c newline) eqn:E.
  - simpl. rewrite E. exact IH.
  - rewrite lines_plain by exact E. pose proof (lines_nonempty s) as Hne.
    destruct (lines s) as [|l ls]; [contradiction|].
    simpl in *. apply andb_true_iff in IH. destruct IH as [Hl Hls].
    unfold lacks in *. simpl. rewrite E, Hl, Hls. reflexivity.
Qed.

Lemma join_lines (s : str) : join [newline] (lines s) = s.
Proof.
  induction s as [|c s IH]; [reflexivity|].
  pose proof (lines_nonempty s) as Hne.
  destruct (char_eqb c newline) eqn:E.
  - simpl lines. rewrite E.
    destruct (lines s) as [|l ls]; [contradiction|].
    rewrite join_cons, IH. apply char_eqb_eq in E. subst c. reflexivity.
  - rewrite lines_plain by exact E.
    destruct (lines s) as [|l ls]; [contradiction|].
    cbn [hd tl]. destruct ls as [|q ls].
    + simpl in *. congruence.
    + rewrite join_cons in *. rewrite <- IH. reflexivity.
Qed.

Lemma lines_no_blank (s : str) :
  forallb nonempty (lines s) = no_blank_line true s
  /\ forallb nonempty (tl (lines s)) = no_blank_line false s.
Proof.
  induction s as [|c s [IH1 IH2]]; [split; reflexivity|].
  destruct (char_eqb c newline) eqn:E.
  - simpl. rewrite E. simpl. split; [reflexivity | exact IH1].
  - rewrite lines_plain by exact E. simpl. rewrite E. split; exact IH2.
Qed.

Lemma filter_all {A : Type} (f : A -> bool) (l : list A) :
  forallb f l = true -> filter f l = l.
Proof.
  induction l as [|a l IH]; simpl; [reflexivity|].
  intros H. apply andb_true_iff in H. destruct H as [-> Hl].
  rewrite IH by exact Hl. reflexivity.
Qed.

Lemma forallb_filter {A : Type} (f g : A -> bool) (l : list A) :
  forallb g l = true -> forallb g (filter f l) = true.
Proof.
  induction l as [|a l IH]; simpl; [reflexivity|].
  intros H. apply andb_true_iff in H. destruct H as [Ha Hl].
  destruct (f a); simpl; [rewrite Ha|]; auto.
Qed.

Lemma forallb_filter_self {A : Type} (f : A -> bool) (l : list A) :
  forallb f (filter f l) = true.
Proof.
  induction l as [|a l IH]; simpl; [reflexivity|].
  destruct (f a) eqn:E; simpl; [rewrite E|]; auto.
Qed.

(** A text without empty lines is left as it is. *)
Lemma collapse_newlines_fixed (s : str) :
  no_blank_line true s = true -> collapse_newlines s = s.
Proof.
  intros H. unfold collapse_newlines. rewrite split_newline.
  rewrite filter_all by (rewrite (proj1 (lines_no_blank s)); exact H).
  apply join_lines.
Qed.

(** What the collapse leaves has no empty line, unless nothing is left. *)
Lemma collapse_newlines_no_blank (s : str) :
  collapse_newlines s = [] \/ no_blank_line true (collapse_newlines s) = true.
Proof.
  unfold collapse_newlines. rewrite split_newline.
  destruct (filter nonempty (lines s)) as [|l ls] eqn:E; [left; reflexivity|].
  right. rewrite <- (proj1 (lines_no_blank _)), lines_join.
  - rewrite <- E. apply forallb_filter_self.
  - discriminate.
  - rewrite <- E. apply forallb_filter, lines_lack_newline.
Qed.

(** *** Trimming keeps lines non-empty *)

Lemma isspace_newline (c : char) : char_eqb c newline = true -> isspace c = true.
Proof. intros H. apply char_eqb_eq in H. subst c. reflexivity. Qed.

Lemma lstrip_no_blank (s : str) (p : bool) :
  no_blank_line p s = true -> lstrip s <> [] ->
  no_blank_line true (lstrip s) = true.
Proof.
  revert p. induction s as [|c s IH]; intros p H Hne; [contradiction|].
  cbn [lstrip] in *. cbn [no_blank_line] in H.
  destruct (isspace c) eqn:Ec.
  - destruct (char_eqb c newline).
    + apply andb_true_iff in H. apply (IH true); tauto.
    + apply (IH false); assumption.
  - cbn [no_blank_line].
    destruct (char_eqb c newline) eqn:E; [|exact H].
    rewrite (isspace_newline _ E) in Ec. discriminate.
Qed.

Lemma rstrip_no_blank (s : str) (p : bool) :
  no_blank_line p s = true -> rstrip s <> [] ->
  no_blank_line p (rstrip s) = true.
Proof.
  revert p. induction s as [|c s IH]; intros p H Hne; [contradiction|].
  rewrite rstrip_cons in *. cbn [no_blank_line] in H.
  destruct (rstrip s) as [|t ts] eqn:Er.
  - destruct (isspace c) eqn:Ec; [contradiction|]. cbn [no_blank_line].
    destruct (char_eqb c newline) eqn:E; [|reflexivity].
    rewrite (isspace_newline _ E) in Ec. discriminate.
  - cbn [no_blank_line]. destruct (char_eqb c newline).
    + apply andb_true_iff in H. destruct H as [-> H]. simpl.
      apply (IH true); [exact H | discriminate].
    + apply (IH false); [exact H | discriminate].
Qed.

Lemma strip_no_blank (s : str) :
  no_blank_line true s = true -> strip s <> [] ->
  no_blank_line true (strip s) = true.
Proof.
  intros H Hne. unfold strip in *. apply rstrip_no_blank; [|exact Hne].
  apply (lstrip_no_blank s true); [exact H|].
  intros E. rewrite E in Hne. contradiction.
Qed.

(** *** Markers survive neither the collapse nor the trimming *)

Lemma lstrip_suffix (s : str) : exists a, s = a ++ lstrip s.
Proof.
  induction s as [|c s [a IH]]; [exists []; reflexivity|].
  simpl. destruct (isspace c).
  - exists (c :: a). simpl. f_equal. exact IH.
  - exists []. reflexivity.
Qed.

Lemma rstrip_prefix (s : str) : exists b, s = rstrip s ++ b.
Proof.
  induction s as [|c s [b IH]]; [exists []; reflexivity|].
  rewrite rstrip_cons. destruct (rstrip s) as [|t ts].
  - destruct (isspace c).
    + exists (c :: s). reflexivity.
    + exists s. reflexivity.
  - exists b. simpl. f_equal. exact IH.
Qed.

Lemma occurs_strip (pat s : str) :
  occurs pat s = false -> occurs pat (strip s) = false.
Proof.
  intros H. unfold strip. destruct (lstrip_suffix s) as [a Ha].
  destruct (rstrip_prefix (lstrip s)) as [b Hb].
  rewrite Hb in Ha. rewrite Ha in H.
  apply (occurs_false_part _ _ _ _ H).
Qed.

(** A pattern without a given character that occurs around that
    character occurs on one side of it. *)
Lemma occurs_across (pat a b : str) (c : char) :
  pat <> [] -> lacks c pat = true ->
  occurs pat a = false -> occurs pat b = false ->
  occurs pat (a ++ c :: b) = false.
Proof.
  intros Hne Hpat Ha Hb. unfold occurs in *.
  induction a as [|x a IH].
  - cbn [app index_of].
    replace (prefixb pat (c :: b)) with false.
    + destruct (index_of pat b); [discriminate | reflexivity].
    + destruct pat as [|p pat]; [contradiction|].
      unfold lacks in Hpat. simpl in Hpat. apply andb_true_iff in Hpat.
      destruct Hpat as [Hp _]. apply negb_true_iff in Hp.
      simpl. rewrite Hp. reflexivity.
  - change ((x :: a) ++ c :: b) with (x :: (a ++ c :: b)).
    cbn [index_of] in *.
    change (x :: (a ++ c :: b)) with ((x :: a) ++ c :: b).
    rewrite (headless_prefix c pat (x :: a) b Hpat).
    destruct (prefixb pat (x :: a)); [discriminate|].
    destruct (index_of pat a); [discriminate|].
    specialize (IH eq_refl).
    destruct (index_of pat (a ++ c :: b)); [discriminate | reflexivity].
Qed.

Lemma occurs_join (pat : str) (ls : list str) :
  pat <> [] -> lacks newline pat = true ->
  forallb (fun l => negb (occurs pat l)) ls = true ->
  occurs pat (join [newline] ls) = false.
Proof.
  intros Hne Hpat. induction ls as [|l ls IH]; intros H.
  - apply occurs_nil. exact Hne.
  - simpl in H. apply andb_true_iff in H. destruct H as [Hl Hls].
    apply negb_true_iff in Hl. destruct ls as [|q ls]; [exact Hl|].
    rewrite join_cons. cbn [app].
    apply occurs_across; auto.
Qed.

Lemma occurs_lines (pat s : str) :
  pat <> [] -> occurs pat s = false ->
  forallb (fun l => negb (occurs pat l)) (lines s) = true.
Proof.
  intros Hne. induction s as [|c s IH]; intros H.
  - simpl. rewrite occurs_nil by exact Hne. reflexivity.
  - pose proof (occurs_false_tail _ _ _ H) as Hs. specialize (IH Hs).
    destruct (char_eqb c newline) eqn:E.
    + simpl. rewrite E. simpl. rewrite occurs_nil by exact Hne. exact IH.
    + rewrite lines_plain by exact E.
      pose proof (join_lines s) as Hj. pose proof (lines_nonempty s) as Hn.
      destruct (lines s) as [|l ls]; [contradiction|].
      cbn [hd tl forallb] in *. apply andb_true_iff in IH.
      destruct IH as [_ Hls]. rewrite Hls, andb_true_r. apply negb_true_iff.
      assert (Hpre : exists rest, s = l ++ rest).
      { destruct ls as [|q ls].
        - exists []. rewrite app_nil_r. symmetry. exact Hj.
        - rewrite join_cons in Hj. eexists. symmetry. exact Hj. }
      destruct Hpre as [rest ->].
      apply (occurs_false_part pat [] (c :: l) rest). exact H.
Qed.

Lemma occurs_collapse_newlines (pat s : str) :
  pat <> [] -> lacks newline pat = true ->
  occurs pat s = false -> occurs pat (collapse_newlines s) = false.
Proof.
  intros Hne Hpat H. unfold collapse_newlines. rewrite split_newline.
  apply occurs_join; [exact Hne | exact Hpat |].
  apply forallb_filter, occurs_lines; assumption.
Qed.

Lemma has_span_cleaned (s : str) :
  has_span s = false -> has_span (strip (collapse_newlines s)) = false.
Proof.
  unfold has_span. intros H. apply andb_false_iff in H.
  apply andb_false_iff. destruct H as [H|H]; [left|right];
    apply occurs_strip, occurs_collapse_newlines;
    (discriminate || reflexivity || exact H).
Qed.

Lemma strip_spans_done (fuel : nat) (s r : str) :
  strip_spans fuel s = Some r -> has_span r = false.
Proof.
  revert s. induction fuel as [|fuel IH]; intros s; cbn [strip_spans];
    destruct (has_span s) eqn:E; try discriminate.
  - intros [= <-]. exact E.
  - apply IH.
  - intros [= <-]. exact E.
Qed.

(** X5: whenever the cleanup returns, cleaning its result again returns
    the same text, with any number of rounds allowed. *)
Lemma clean_response_content_again (fuel fuel' : nat) (s r : str) :
  clean_response_content fuel s = Some r ->
  clean_response_content fuel' r = Some r.
Proof.
  unfold clean_response_content at 1. destruct s as [|c s].
  - intros [= <-]. reflexivity.
  - destruct (strip_spans fuel (c :: s)) as [stripped|] eqn:E; [|discriminate].
    intros [= <-]. pose proof (strip_spans_done _ _ _ E) as Hdone.
    remember (strip (collapse_newlines stripped)) as r eqn:Er.
    assert (Hspan : has_span r = false)
      by (subst r; apply has_span_cleaned, Hdone).
    destruct r as [|x r']; [reflexivity|].
    assert (Hnb : no_blank_line true (x :: r') = true).
    { destruct (collapse_newlines_no_blank stripped) as [Hnil|Hnb].
      - rewrite Hnil in Er. discriminate.
      - rewrite Er. apply strip_no_blank; [exact Hnb|].
        rewrite <- Er. discriminate. }
    unfold clean_response_content.
    replace (strip_spans fuel' (x :: r')) with (Some (x :: r'))
      by (destruct fuel'; cbn [strip_spans]; rewrite Hspan; reflexivity).
    rewrite collapse_newlines_fixed by exact Hnb.
    rewrite Er, strip_strip. reflexivity.
Qed.

(** ** The filter along a stream *)

Lemma remove_spans_skip (inside : bool) (x r : str) :
  remove_spans_from inside (length x) (x ++ r) = remove_spans_from inside 0 r.
Proof. induction x as [|c x IH]; [reflexivity | exact IH]. Qed.

Lemma remove_spans_open (r : str) :
  remove_spans_from false 0 (open_tag ++ r) = remove_spans_from true 0 r.
Proof.
  pose proof (prefixb_app open_tag r) as Hp.
  change (open_tag ++ r) with (N_of_ascii "<" :: (py "think>" ++ r)) in *.
  cbn [remove_spans_from]. rewrite Hp.
  apply (remove_spans_skip true (py "think>") r).
Qed.

Lemma remove_spans_close (r : str) :
  remove_spans_from true 0 (close_tag ++ r) = remove_spans_from false 0 r.
Proof.
  pose proof (prefixb_app close_tag r) as Hp.
  change (close_tag ++ r) with (N_of_ascii "<" :: (py "/think>" ++ r)) in *.
  cbn [remove_spans_from]. rewrite Hp.
  apply (remove_spans_skip false (py "/think>") r).
Qed.

(** Outside a span, text in which no opening marker begins is kept. *)
Lemma remove_spans_outside (t r : str) :
  starts_within open_tag t r = false ->
  remove_spans_from false 0 (t ++ r) = t ++ remove_spans_from false 0 r.
Proof.
  induction t as [|c t IH]; intros H; [reflexivity|].
  cbn [starts_within] in H. apply orb_false_iff in H. destruct H as [Hp Ht].
  change ((c :: t) ++ r) with (c :: (t ++ r)) in *.
  cbn [remove_spans_from]. rewrite Hp, IH by exact Ht. reflexivity.
Qed.

(** Inside a span, text in which no closing marker begins is dropped. *)
Lemma remove_spans_inside (t r : str) :
  starts_within close_tag t r = false ->
  remove_spans_from true 0 (t ++ r) = remove_spans_from true 0 r.
Proof.
  induction t as [|c t IH]; intros H; [reflexivity|].
  cbn [starts_within] in H. apply orb_false_iff in H. destruct H as [Hp Ht].
  change ((c :: t) ++ r) with (c :: (t ++ r)) in *.
  cbn [remove_spans_from]. rewrite Hp, IH by exact Ht. reflexivity.
Qed.

(** No occurrence of an unbordered pattern begins in a text that holds
    none and is followed by one. *)
Lemma starts_within_before (pat pre r : str) :
  unbordered pat = true -> occurs pat pre = false ->
  starts_within pat pre (pat ++ r) = false.
Proof.
  intros Hu. induction pre as [|c pre IH]; intros H; [reflexivity|].
  cbn [starts_within].
  rewrite unbordered_prefix by (exact Hu || discriminate).
  rewrite (occurs_false_prefixb _ _ H). apply IH.
  apply (occurs_false_tail _ _ _ H).
Qed.

Lemma occurs_index_of (pat s : str) :
  occurs pat s = match index_of pat s with Some _ => true | None => false end.
Proof. reflexivity. Qed.

(** On one fragment of a framed stream the filter retains what the span
    removal keeps of it, and ends in the state the removal is in. *)
Lemma framed_step (st : bool) (f : str) (rest : list str) :
  framed st (f :: rest) = true ->
  remove_spans_from st 0 (f ++ concat rest)
  = fst (filter_tags f st)
    ++ remove_spans_from (snd (filter_tags f st)) 0 (concat rest)
  /\ framed (snd (filter_tags f st)) rest = true.
Proof.
  cbn [framed]. set (after := concat rest).
  destruct st; destruct (index_of open_tag f) as [i|] eqn:Eo;
    try discriminate.
  - (* inside a span, no opening marker in the fragment *)
    destruct (index_of close_tag f) as [j|] eqn:Ec; intros H.
    + apply andb_true_iff in H. destruct H as [H Hrest].
      apply andb_true_iff in H. destruct H as [Hpost Hopen].
      apply negb_true_iff in Hpost, Hopen.
      pose proof (index_of_decompose _ _ _ Ec) as Hf.
      set (body := firstn j f) in *.
      set (post := skipn (j + length close_tag) f) in *.
      assert (Hft : filter_tags f true = (post, Normal)).
      { rewrite Hf. apply filter_tags_close; [|exact Hpost].
        rewrite <- Hf, occurs_index_of, Eo. reflexivity. }
      rewrite Hft. cbn [fst snd]. split; [|exact Hrest].
      rewrite Hf. repeat rewrite <- app_assoc.
      rewrite remove_spans_inside.
      * rewrite remove_spans_close. apply remove_spans_outside. exact Hopen.
      * apply starts_within_before; [reflexivity|].
        apply index_of_before; [discriminate | exact Ec].
    + apply andb_true_iff in H. destruct H as [Hclose Hrest].
      apply negb_true_iff in Hclose.
      rewrite filter_tags_plain
        by (rewrite occurs_index_of, ?Eo, ?Ec; reflexivity).
      cbn [fst snd app]. split; [|exact Hrest].
      apply remove_spans_inside. exact Hclose.
  - (* outside a span, an opening marker in the fragment *)
    intros H. apply andb_true_iff in H. destruct H as [Hclose Hrest].
    apply negb_true_iff in Hclose.
    pose proof (index_of_decompose _ _ _ Eo) as Hf.
    set (pre := firstn i f) in *.
    set (post := skipn (i + length open_tag) f) in *.
    assert (Hpre : occurs open_tag pre = false)
      by (apply index_of_before; [discriminate | exact Eo]).
    assert (Hft : filter_tags f false = (pre, InsideThinking))
      by (rewrite Hf; apply filter_tags_open; exact Hpre).
    rewrite Hft. cbn [fst snd]. split; [|exact Hrest].
    rewrite Hf. repeat rewrite <- app_assoc.
    rewrite remove_spans_outside
      by (apply starts_within_before; [reflexivity | exact Hpre]).
    f_equal. rewrite remove_spans_open. apply remove_spans_inside.
    exact Hclose.
  - (* outside a span, no opening marker in the fragment *)
    destruct (index_of close_tag f) as [j|] eqn:Ec; [discriminate|].
    intros H. apply andb_true_iff in H. destruct H as [Hopen Hrest].
    apply negb_true_iff in Hopen.
    rewrite filter_tags_plain
      by (rewrite occurs_index_of, ?Eo, ?Ec; reflexivity).
    cbn [fst snd]. split; [|exact Hrest].
    apply remove_spans_outside. exact Hopen.
Qed.

Lemma retained_framed (st : bool) (fragments : list str) :
  framed st (map unwrap_fence fragments) = true ->
  concat (retained st fragments)
  = remove_spans_from st 0 (concat (map unwrap_fence fragments)).
Proof.
  revert st. induction fragments as [|f fragments IH]; intros st H.
  - reflexivity.
  - cbn [map retained concat] in *.
    destruct (framed_step _ _ _ H) as [Hstep Hrest].
    rewrite Hstep, process_unwrapped. f_equal. apply IH. exact Hrest.
Qed.

(** C1, as the code has it: for every sequence of fragments whose markers
    fall in with the fragments (see [framed]: after the fence clean-up no
    marker is split over two fragments, a fragment read in state Normal
    holds no closing marker unless after an opening one that it does not
    close, and a fragment read in state InsideThinking holds no opening
    marker and at most one closing marker), the concatenation of the
    retained text is the concatenation of the cleaned-up fragments with
    every span removed. *)
Theorem retained_is_span_removal (fragments : list str) :
  framed Normal (map unwrap_fence fragments) = true ->
  concat (retained Normal fragments)
  = remove_spans (concat (map unwrap_fence fragments)).
Proof. apply retained_framed. Qed.

Lemma retained_is_span_removal_witness :
  framed Normal (map unwrap_fence whole_marker_stream) = true
  /\ concat (retained Normal whole_marker_stream) = py "ab"
  /\ remove_spans (concat (map unwrap_fence whole_marker_stream)) = py "ab".
Proof.
  split; [reflexivity|]. split; [|reflexivity].
  rewrite (retained_is_span_removal whole_marker_stream); reflexivity.
Defined.

(** C1 as stated fails, on its own example: an opening marker split over
    two fragments is not recognised, both of its halves are retained, and
    so is the text up to the closing marker's fragment start. *)
Lemma split_marker_is_retained :
  concat (retained Normal split_marker_stream) = py "a<thib"
  /\ remove_spans (concat split_marker_stream) = py "ab"
  /\ py "a<thib" <> py "ab".
Proof. repeat split; (reflexivity || discriminate). Qed.

(** ** The streaming transformer *)

Lemma utf8_decode_blank (chunk : bytes) :
  forallb byte_isspace chunk = true ->
  utf8_decode chunk = Some (map Byte.to_N chunk).
Proof.
  unfold utf8_decode. induction chunk as [|b chunk IH]; [reflexivity|].
  cbn [forallb map utf8_decode_codes]. intros H.
  apply andb_true_iff in H. destruct H as [Hb Hrest].
  replace (Byte.to_N b <? 128)%N with true.
  - rewrite IH by exact Hrest. reflexivity.
  - symmetry. apply N.ltb_lt. unfold byte_isspace in Hb.
    apply orb_true_iff in Hb. destruct Hb as [Hb|Hb].
    + apply andb_true_iff in Hb. destruct Hb as [_ Hb].
      apply N.leb_le in Hb. lia.
    + apply N.eqb_eq in Hb. lia.
Qed.

Section Transformer.

Variable json_loads : str -> loads_result.

(** The step for a record that carries a text payload at
    [message.content]. *)
Lemma generate_step_text (st : bool) (chunk : bytes) (text : str)
  (data msg : list (str * json)) (content : str) :
  chunk <> [] ->
  utf8_decode chunk = Some text ->
  json_loads text = Parsed (JDict data) ->
  dict_get data (py "message") = Some (JDict msg) ->
  dict_get msg (py "content") = Some (JStr content) ->
  generate_step json_loads st chunk =
  let r := process_thinking_content content st in
  ret (if is_empty_content (fst r) then []
       else [Dumped (JDict (dict_set data (py "message")
                      (JDict (dict_set msg (py "content") (JStr (fst r))))))],
       snd r).
Proof.
  intros Hne Hdec Hloads Hmsg Hcontent. unfold generate_step.
  destruct chunk as [|b chunk]; [contradiction|].
  rewrite Hdec, Hloads.
  cbn [contains getitem setitem bind ret]. rewrite Hmsg.
  cbn [contains getitem setitem bind ret]. rewrite Hcontent.
  cbn [process_thinking_value is_empty_value bind ret fst snd].
  destruct (is_empty_content (fst (process_thinking_content content st)));
    reflexivity.
Qed.

Lemma generate_from_skip (st st' : bool) (chunk : bytes) (rest : list bytes) :
  generate_step json_loads st chunk = ret ([], st') ->
  generate_from json_loads st (chunk :: rest)
  = generate_from json_loads st' rest.
Proof.
  intros H. cbn [generate_from]. rewrite H. unfold ret.
  destruct (generate_from json_loads st' rest). reflexivity.
Qed.


(** C9, as the code has it: an empty line is skipped, nothing is yielded
    for it and the state is kept; a line of white space only that is not
    empty is read like every other line, and when [json.loads] rejects
    its text the line is forwarded as it is. *)
Theorem only_empty_lines_are_skipped (st : bool) (chunk : bytes) :
  (generate_step json_loads st [] = ret ([], st)
   /\ forall rest, generate_from json_loads st ([] :: rest)
                   = generate_from json_loads st rest)
  /\ (chunk <> [] -> forallb byte_isspace chunk = true ->
      json_loads (map Byte.to_N chunk) = JSONDecodeError ->
      generate_step json_loads st chunk = ret ([Raw chunk], st)).
Proof.
  split.
  - split; [reflexivity|]. intros rest. apply generate_from_skip. reflexivity.
  - intros Hne Hblank Hloads. unfold generate_step.
    destruct chunk as [|b chunk]; [contradiction|].
    rewrite utf8_decode_blank by exact Hblank. rewrite Hloads. reflexivity.
Qed.

(** A line that decodes and that [json.loads] rejects with
    [JSONDecodeError] is forwarded as it is, followed by one line feed,
    and the stream goes on in the same state. *)
Lemma rejected_line_is_forwarded (st : bool) (chunk : bytes) (text : str)
  (json_dumps : json -> bytes) :
  chunk <> [] ->
  utf8_decode chunk = Some text ->
  json_loads text = JSONDecodeError ->
  generate_step json_loads st chunk = ret ([Raw chunk], st)
  /\ map (wire json_dumps) [Raw chunk] = [chunk ++ [Byte.x0a]].
Proof.
  intros Hne Hdec Hloads. split; [|reflexivity]. unfold generate_step.
  destruct chunk as [|b chunk]; [contradiction|].
  rewrite Hdec, Hloads. reflexivity.
Qed.

(** C10 fails on the code: a line that is not valid UTF-8, such as the
    single byte 0xFF, raises [UnicodeDecodeError] at [chunk.decode], which
    the handler for [json.JSONDecodeError] does not catch: the generator
    ends there, nothing is yielded for the line or for any line after
    it. *)
Theorem undecodable_line_ends_the_stream (st : bool) (rest : list bytes) :
  utf8_decode [Byte.xff] = None
  /\ generate_step json_loads st [Byte.xff] = raise UnicodeDecodeError
  /\ generate_from json_loads st ([Byte.xff] :: rest)
     = ([], Some UnicodeDecodeError).
Proof. repeat split. Qed.

End Transformer.



Lemma only_empty_lines_are_skipped_witness :
  generate_step reference_json_loads Normal (ascii_bytes "  ")
  = ret ([Raw (ascii_bytes "  ")], Normal).
Proof.
  apply (only_empty_lines_are_skipped reference_json_loads Normal
           (ascii_bytes "  ")); [discriminate | reflexivity | reflexivity].
Defined.

(** C9 as stated fails: a line of two blanks is not skipped; it is
    yielded as it is, followed by a line feed. *)
Lemma blank_line_is_forwarded :
  forallb byte_isspace (ascii_bytes "  ") = true
  /\ generate reference_json_loads [ascii_bytes "  "]
     = ([Raw (ascii_bytes "  ")], None).
Proof. split; reflexivity. Qed.

(** The line [not-json] is forwarded unchanged. *)
Lemma not_json_is_forwarded :
  generate reference_json_loads [ascii_bytes "not-json"]
  = ([Raw (ascii_bytes "not-json")], None).
Proof. reflexivity. Qed.

(** * Further properties of the code *)

(** ** [is_empty_content] and the tag filter *)

Lemma lstrip_nil_blank (s : str) : lstrip s = [] -> forallb isspace s = true.
Proof.
  induction s as [|c s IH]; simpl; [reflexivity|].
  destruct (isspace c); [exact IH | discriminate].
Qed.

Lemma strip_nil_blank (s : str) : strip s = [] -> forallb isspace s = true.
Proof.
  unfold strip. intros H. apply lstrip_nil_blank.
  pose proof (rstrip_nil_blank _ H) as Hb.
  pose proof (lstrip_starts_visible s) as Hv.
  destruct (lstrip s) as [|c t]; [reflexivity|].
  simpl in Hb, Hv. apply andb_true_iff in Hb. destruct Hb as [Hc _].
  rewrite Hc in Hv. discriminate.
Qed.

(** X1: [is_empty_content] holds of exactly the texts made of white space
    only, the empty text among them. *)
Theorem is_empty_content_blank_only (message_content : str) :
  is_empty_content message_content = forallb isspace message_content.
Proof.
  destruct message_content as [|c s]; [reflexivity|].
  unfold is_empty_content.
  destruct (strip (c :: s)) eqn:E.
  - symmetry. apply strip_nil_blank. exact E.
  - destruct (forallb isspace (c :: s)) eqn:Eb; [|reflexivity].
    rewrite strip_blank in E by exact Eb. discriminate.
Qed.

(** The last piece of a split is an end of the text. *)
Lemma last_split_suffix (sep s : str) :
  sep <> [] -> exists a, s = a ++ last (split sep s) [].
Proof.
  intros Hne. remember (length s) as n eqn:Hn. revert s Hn.
  induction n as [n IH] using lt_wf_ind. intros s ->.
  rewrite split_unfold by exact Hne.
  destruct (index_of sep s) as [i|] eqn:E.
  - pose proof (index_of_nonempty _ _ _ Hne E) as Hi.
    assert (0 < length sep) by (destruct sep; [contradiction | simpl; lia]).
    destruct (IH (length (skipn (i + length sep) s))
                 ltac:(rewrite length_skipn; lia)
                 (skipn (i + length sep) s) eq_refl) as [a Ha].
    pose proof (split_nonempty sep (skipn (i + length sep) s) Hne) as Hs.
    destruct (split sep (skipn (i + length sep) s)) as [|p ps] eqn:Ep;
      [contradiction|].
    exists (firstn (i + length sep) s ++ a).
    rewrite <- app_assoc.
    change (last (firstn i s :: p :: ps) []) with (last (p :: ps) []).
    rewrite <- Ha. symmetry. apply firstn_skipn.
  - exists []. reflexivity.
Qed.

(** X2: whatever the text and the state, the text the filter retains
    holds no opening marker. *)
Theorem retained_text_has_no_opening_marker (message_content : str)
  (thinking_started : bool) :
  occurs open_tag
    (fst (process_thinking_content message_content thinking_started))
  = false.
Proof.
  rewrite process_unwrapped. set (u := unwrap_fence message_content).
  unfold filter_tags. rewrite (occurs_index_of open_tag u).
  destruct (index_of open_tag u) as [i|] eqn:Eo.
  - cbn [fst]. rewrite (hd_split _ _ i) by (discriminate || exact Eo).
    apply index_of_before; [discriminate | exact Eo].
  - assert (Hu : occurs open_tag u = false)
      by (rewrite occurs_index_of, Eo; reflexivity).
    destruct (occurs close_tag u).
    + cbn [fst].
      destruct (last_split_suffix close_tag u) as [a Ha]; [discriminate|].
      rewrite Ha in Hu.
      apply (occurs_false_part open_tag a _ []). rewrite app_nil_r. exact Hu.
    + destruct thinking_started; [reflexivity | exact Hu].
Qed.

(** ** The fence clean-up in full *)

Lemma occurs_false_skipn (pat s : str) (n : nat) :
  occurs pat s = false -> occurs pat (skipn n s) = false.
Proof.
  intros H. rewrite <- (firstn_skipn n s) in H.
  apply (occurs_false_part pat (firstn n s) _ []). rewrite app_nil_r. exact H.
Qed.

Lemma occurs_false_lstrip (pat s : str) :
  occurs pat s = false -> occurs pat (lstrip s) = false.
Proof.
  intros H. destruct (lstrip_suffix s) as [a Ha]. rewrite Ha in H.
  apply (occurs_false_part pat a _ []). rewrite app_nil_r. exact H.
Qed.

Lemma lazy_group_none (s : str) : occurs fence s = false -> lazy_group s = None.
Proof.
  induction s as [|c s IH]; intros H; [reflexivity|].
  cbn [lazy_group].
  rewrite (occurs_false_prefixb _ _ (occurs_false_lstrip _ _ H)).
  rewrite IH by (apply (occurs_false_tail _ _ _ H)). reflexivity.
Qed.

Lemma hd_error_none {A : Type} (l : list A) : hd_error l = None -> l = [].
Proof. destruct l; [reflexivity | discriminate]. Qed.

Lemma group_to_close_nil (s : str) :
  occurs fence s = false -> group_to_close s = [].
Proof.
  intros H. apply hd_error_none. rewrite group_to_close_first.
  apply lazy_group_none. exact H.
Qed.

Lemma blanks_to_close_nil (s : str) :
  occurs fence s = false -> blanks_to_close s = [].
Proof.
  unfold blanks_to_close. induction s as [|c s IH]; intros H.
  - reflexivity.
  - cbn [ws_greedy]. destruct (isspace c).
    + rewrite flat_map_app, IH by (apply (occurs_false_tail _ _ _ H)).
      cbn [flat_map app]. rewrite group_to_close_nil by exact H. reflexivity.
    + cbn [flat_map]. rewrite group_to_close_nil by exact H. reflexivity.
Qed.

Lemma tag_to_close_nil (s : str) :
  occurs fence s = false -> tag_to_close s = [].
Proof.
  intros H. unfold tag_to_close, opt_json, lit.
  destruct (prefixb json_tag s); cbn [app flat_map];
    rewrite ?(blanks_to_close_nil (skipn (length json_tag) s))
      by (apply occurs_false_skipn; exact H);
    rewrite blanks_to_close_nil by exact H; reflexivity.
Qed.

Lemma fence_matches_at_nil (t : str) :
  occurs fence (skipn (length fence) t) = false -> fence_matches_at t = [].
Proof.
  intros H. unfold fence_matches_at, lit.
  destruct (prefixb fence t); [|reflexivity].
  cbn [flat_map]. rewrite tag_to_close_nil by exact H. reflexivity.
Qed.

(** Without a fence after the place of the opening one, the pattern
    matches nowhere. *)
Lemma re_search_fence_open_only (text : str) :
  occurs fence (skipn (length fence) text) = false ->
  re_search_fence text = None.
Proof.
  induction text as [|c text IH]; intros H.
  - reflexivity.
  - cbn [re_search_fence]. rewrite fence_matches_at_nil by exact H.
    apply IH.
    replace (skipn (length fence) text)
      with (skipn 1 (skipn (length fence) (c :: text)))
      by (rewrite skipn_skipn; reflexivity).
    apply occurs_false_skipn. exact H.
Qed.

Lemma re_search_fence_unclosed (text : str) (i : nat) :
  index_of fence text = Some i ->
  occurs fence (skipn (i + length fence) text) = false ->
  re_search_fence text = None.
Proof.
  revert i. induction text as [|c text IH]; intros i; [discriminate|].
  cbn [index_of]. destruct (prefixb fence (c :: text)) eqn:E.
  - intros [= <-] H. apply re_search_fence_open_only. exact H.
  - destruct (index_of fence text) as [k|] eqn:Ek; [|discriminate].
    intros [= <-] H. cbn [re_search_fence].
    unfold fence_matches_at at 1, lit. rewrite E. cbn [flat_map].
    apply (IH k); [reflexivity | exact H].
Qed.

(** A pattern does not begin in text that lacks its first character. *)
Lemma occurs_lacks_prefix (c : char) (tl a r : str) :
  lacks c a = true -> occurs (c :: tl) (a ++ r) = occurs (c :: tl) r.
Proof.
  unfold lacks, occurs. induction a as [|x a IH]; intros H; [reflexivity|].
  cbn [forallb] in H. apply andb_true_iff in H. destruct H as [Hx Ha].
  apply negb_true_iff in Hx.
  change ((x :: a) ++ r) with (x :: (a ++ r)). cbn [index_of prefixb].
  replace (char_eqb c x) with false
    by (unfold char_eqb in *; rewrite N.eqb_sym; symmetry; exact Hx).
  cbn [andb]. specialize (IH Ha).
  destruct (index_of (c :: tl) (a ++ r)), (index_of (c :: tl) r);
    (reflexivity || discriminate).
Qed.

(** X3: the fence clean-up, whose pattern is run by a backtracking
    engine, does what the plain description says: a text with a fenced
    block becomes the trimmed content of its first block, and every other
    text, one with a single fence among them, is left as it is. *)
Theorem unwrap_fence_is_fenced_block (message_content : str) :
  unwrap_fence message_content =
  match fenced_block message_content with
  | Some content => content
  | None => message_content
  end.
Proof.
  destruct (fenced_block message_content) as [content|] eqn:Eb.
  - apply unwrap_fenced_block. exact Eb.
  - unfold fenced_block in Eb. unfold unwrap_fence.
    rewrite occurs_index_of.
    destruct (index_of fence message_content) as [i|] eqn:Ei; [|reflexivity].
    cbv zeta in Eb.
    set (after_open := skipn (i + length fence) message_content) in *.
    rewrite (re_search_fence_unclosed _ i Ei); [reflexivity|].
    fold after_open.
    destruct (prefixb json_tag after_open) eqn:Ej.
    + rewrite (prefixb_split _ _ Ej).
      assert (Hj : forall r, occurs fence (json_tag ++ r) = occurs fence r)
        by (intros r;
            apply (occurs_lacks_prefix (N_of_ascii "`") (py "``") json_tag);
            reflexivity).
      rewrite Hj, occurs_index_of.
      destruct (index_of fence (skipn (length json_tag) after_open));
        [discriminate | reflexivity].
    + rewrite occurs_index_of.
      destruct (index_of fence after_open); [discriminate | reflexivity].
Qed.

(** ** Plain text along a stream *)

Lemma process_plain (text : str) (st : bool) :
  occurs fence text = false -> occurs open_tag text = false ->
  occurs close_tag text = false ->
  process_thinking_content text st = ((if st then [] else text), st).
Proof.
  intros Hf Ho Hc. rewrite process_unwrapped, unwrap_fence_no_fence by exact Hf.
  apply filter_tags_plain; assumption.
Qed.

(** X4: fragments without fence and markers pass through the filter
    unchanged in state Normal, and are all dropped in state
    InsideThinking, which is kept to the end. *)
Theorem plain_fragments_pass_or_drop (fragments : list str) :
  forallb (fun f => negb (occurs fence f) && negb (occurs open_tag f)
                    && negb (occurs close_tag f)) fragments = true ->
  retained Normal fragments = fragments
  /\ retained InsideThinking fragments = map (fun _ => []) fragments.
Proof.
  induction fragments as [|f fragments IH]; intros H; [split; reflexivity|].
  cbn [forallb] in H. apply andb_true_iff in H. destruct H as [Hf Hrest].
  apply andb_true_iff in Hf. destruct Hf as [Hf Hc].
  apply andb_true_iff in Hf. destruct Hf as [Hf Ho].
  apply negb_true_iff in Hf, Ho, Hc. destruct (IH Hrest) as [IHn IHi].
  cbn [retained map]. rewrite !process_plain by assumption. cbn [fst snd].
  split; f_equal; assumption.
Qed.

Lemma plain_fragments_pass_or_drop_witness :
  retained Normal [py "Hello"; py ", "; py "world"]
  = [py "Hello"; py ", "; py "world"].
Proof.
  apply (plain_fragments_pass_or_drop [py "Hello"; py ", "; py "world"]).
  reflexivity.
Defined.

(** ** The non-streaming cleanup, where it returns *)

Lemma clean_response_content_again_witness :
  clean_response_content 1 (py " a<think>x</think>b ") = Some (py "ab")
  /\ clean_response_content 0 (py "ab") = Some (py "ab").
Proof.
  split; [reflexivity|].
  apply (clean_response_content_again 1 0 (py " a<think>x</think>b ")).
  reflexivity.
Defined.

(** X6: what the cleanup returns never holds both markers, has no white
    space at either end, and has no empty line. *)
Theorem cleaned_text_shape (fuel : nat) (content cleaned : str) :
  clean_response_content fuel content = Some cleaned ->
  has_span cleaned = false
  /\ strip cleaned = cleaned
  /\ (cleaned <> [] -> forallb nonempty (split [newline] cleaned) = true).
Proof.
  unfold clean_response_content. destruct content as [|c s].
  - intros [= <-]. repeat split. intros H. contradiction.
  - destruct (strip_spans fuel (c :: s)) as [stripped|] eqn:E; [|discriminate].
    intros [= <-]. pose proof (strip_spans_done _ _ _ E) as Hdone.
    split; [apply has_span_cleaned; exact Hdone|].
    split; [apply strip_strip|].
    intros Hne. rewrite split_newline, (proj1 (lines_no_blank _)).
    destruct (collapse_newlines_no_blank stripped) as [Hnil|Hnb].
    + rewrite Hnil in Hne. contradiction.
    + apply strip_no_blank; assumption.
Qed.

Lemma cleaned_text_shape_witness :
  has_span (py "a</think>b") = false
  /\ strip (py "a</think>b") = py "a</think>b".
Proof.
  split;
    apply (cleaned_text_shape 0 (py "  a</think>b ") (py "a</think>b") eq_refl).
Defined.

(** *** One round of the loop *)

Lemma slice_bound_nat (len i : nat) : slice_bound len (Z.of_nat i) = Nat.min len i.
Proof.
  unfold slice_bound.
  replace (Z.of_nat i <? 0)%Z with false by (symmetry; apply Z.ltb_ge; lia).
  lia.
Qed.

Lemma slice_to_nat (s : str) (i : nat) : slice_to s (Z.of_nat i) = firstn i s.
Proof.
  unfold slice_to. rewrite slice_bound_nat.
  destruct (Nat.le_ge_cases i (length s)) as [H|H].
  - rewrite Nat.min_r by exact H. reflexivity.
  - rewrite Nat.min_l by exact H.
    rewrite firstn_all, firstn_all2 by exact H. reflexivity.
Qed.

Lemma slice_from_nat (s : str) (i : nat) : slice_from s (Z.of_nat i) = skipn i s.
Proof.
  unfold slice_from. rewrite slice_bound_nat.
  destruct (Nat.le_ge_cases i (length s)) as [H|H].
  - rewrite Nat.min_r by exact H. reflexivity.
  - rewrite Nat.min_l by exact H.
    rewrite skipn_all, skipn_all2 by exact H. reflexivity.
Qed.

Lemma strip_first_span_at (content : str) (start close_at : nat) :
  index_of open_tag content = Some start ->
  index_of close_tag content = Some close_at ->
  strip_first_span content
  = firstn start content ++ skipn (close_at + length close_tag) content.
Proof.
  intros Ho Hc. unfold strip_first_span, find. rewrite Ho, Hc.
  rewrite <- Nat2Z.inj_add, slice_to_nat, slice_from_nat. reflexivity.
Qed.

(** X7: a round of the loop cuts from the first opening marker to the end
    of the first closing marker and lengthens the text by as much as that
    end lies before the opening marker; so it shortens the text whenever
    the first closing marker does not begin before the first opening one,
    and never does otherwise. *)
Theorem strip_first_span_length (content : str) (start close_at : nat) :
  index_of open_tag content = Some start ->
  index_of close_tag content = Some close_at ->
  length (strip_first_span content) + (close_at + length close_tag)
  = start + length content
  /\ (start <= close_at -> length (strip_first_span content) < length content)
  /\ (close_at < start -> length content <= length (strip_first_span content)).
Proof.
  intros Ho Hc. rewrite (strip_first_span_at _ _ _ Ho Hc).
  assert (Hso : start + length open_tag <= length content)
    by (apply index_of_nonempty; [discriminate | exact Ho]).
  assert (Hsc : close_at + length close_tag <= length content)
    by (apply index_of_nonempty; [discriminate | exact Hc]).
  rewrite length_app, length_skipn, firstn_length_le by lia.
  change (length open_tag) with 7 in *. change (length close_tag) with 8 in *.
  assert (Hgap : close_at < start -> close_at + 8 <= start).
  { intros Hlt.
    destruct (index_of_Some _ _ _ Ho) as (Hp & _ & _).
    destruct (index_of_Some _ _ _ Hc) as (Hq & _ & _).
    apply prefixb_split in Hq.
    assert (Hskip : skipn start content
                    = skipn (start - close_at) (skipn close_at content))
      by (rewrite skipn_skipn; f_equal; lia).
    rewrite Hq in Hskip. rewrite Hskip in Hp.
    destruct (Nat.le_gt_cases (close_at + 8) start) as [Hle|Hgt];
      [exact Hle|].
    exfalso. remember (skipn (length close_tag) (skipn close_at content)) as r.
    assert (Hk : exists k, start - close_at = S k /\ k < 7)
      by (exists (start - close_at - 1); lia).
    destruct Hk as (k & Ek & Hk). rewrite Ek in Hp.
    do 7 (destruct k as [|k]; [cbv in Hp; discriminate Hp|]). lia. }
  repeat split; lia.
Qed.

Lemma strip_first_span_length_witness :
  length (strip_first_span (py "a<think>x</think>b"))
  < length (py "a<think>x</think>b")
  /\ length (py "</think>a<think>")
     <= length (strip_first_span (py "</think>a<think>")).
Proof.
  split.
  - apply (strip_first_span_length (py "a<think>x</think>b") 1 9 eq_refl eq_refl).
    apply Nat.leb_le. reflexivity.
  - apply (strip_first_span_length (py "</think>a<think>") 9 0 eq_refl eq_refl).
    apply Nat.ltb_lt. reflexivity.
Defined.

(** *** Texts whose only angle brackets are those of their markers *)

Lemma lacks_app (c : char) (a b : str) :
  lacks c (a ++ b) = lacks c a && lacks c b.
Proof. unfold lacks. apply forallb_app. Qed.

Lemma occurs_lacks (c : char) (tl s : str) :
  lacks c s = true -> occurs (c :: tl) s = false.
Proof.
  intros H. rewrite <- (app_nil_r s), occurs_lacks_prefix by exact H.
  reflexivity.
Qed.

Lemma close_not_in_open (inside : str) :
  lacks angle inside = true -> occurs close_tag (open_tag ++ inside) = false.
Proof.
  intros H. unfold occurs.
  change (open_tag ++ inside) with (angle :: (py "think>" ++ inside)).
  cbn [index_of].
  change (prefixb close_tag (angle :: py "think>" ++ inside)) with false.
  assert (Hr : occurs close_tag (py "think>" ++ inside) = false).
  { apply (occurs_lacks angle (py "/think>")).
    rewrite lacks_app, H. reflexivity. }
  unfold occurs in Hr.
  destruct (index_of close_tag (py "think>" ++ inside));
    [discriminate | reflexivity].
Qed.

Lemma strip_first_span_first (before inside rest : str) :
  lacks angle before = true -> lacks angle inside = true ->
  strip_first_span (before ++ open_tag ++ inside ++ close_tag ++ rest)
  = before ++ rest.
Proof.
  intros Hb Hi.
  assert (Ho : index_of open_tag
                 (before ++ open_tag ++ inside ++ close_tag ++ rest)
               = Some (length before)).
  { apply index_of_first; [reflexivity|].
    apply (occurs_lacks angle (py "think>")). exact Hb. }
  assert (Hc : index_of close_tag
                 ((before ++ open_tag ++ inside) ++ close_tag ++ rest)
               = Some (length (before ++ open_tag ++ inside))).
  { apply index_of_first; [reflexivity|].
    rewrite (occurs_lacks_prefix angle (py "/think>") before) by exact Hb.
    apply close_not_in_open. exact Hi. }
  repeat rewrite <- app_assoc in Hc.
  rewrite (strip_first_span_at _ _ _ Ho Hc). f_equal.
  - apply firstn_app_exact.
  - replace (before ++ open_tag ++ inside ++ close_tag ++ rest)
      with ((before ++ open_tag ++ inside) ++ close_tag ++ rest)
      by (repeat rewrite <- app_assoc; reflexivity).
    rewrite skipn_app_plus. apply skipn_app_exact.
Qed.

Lemma strip_spans_plain (fuel : nat) (s : str) :
  has_span s = false -> strip_spans fuel s = Some s.
Proof. intros H. destruct fuel; cbn [strip_spans]; rewrite H; reflexivity. Qed.

Lemma strip_spans_spans_text (spans : list (str * str)) (tail : str) :
  spans_lack angle spans = true -> lacks angle tail = true ->
  forall (fuel : nat) (before : str),
  lacks angle before = true -> length spans <= fuel ->
  strip_spans fuel (before ++ spans_text spans tail)
  = Some (before ++ concat (map fst spans) ++ tail).
Proof.
  intros Hs Ht. induction spans as [|[outside inside] spans IH];
    intros fuel before Hb Hfuel.
  - cbn [spans_text map concat app].
    apply strip_spans_plain. unfold has_span.
    assert (Ho : occurs open_tag (before ++ tail) = false).
    { apply (occurs_lacks angle (py "think>")).
      rewrite lacks_app, Hb, Ht. reflexivity. }
    rewrite Ho. reflexivity.
  - cbn [spans_lack forallb fst snd] in Hs.
    apply andb_true_iff in Hs. destruct Hs as [Hp Hs].
    apply andb_true_iff in Hp. destruct Hp as [Hout Hin].
    destruct fuel as [|fuel]; [simpl in Hfuel; lia|].
    cbn [spans_text map concat fst].
    replace (before ++ outside ++ open_tag ++ inside ++ close_tag
             ++ spans_text spans tail)
      with ((before ++ outside) ++ open_tag ++ inside ++ close_tag
            ++ spans_text spans tail)
      by (rewrite <- app_assoc; reflexivity).
    cbn [strip_spans].
    replace (has_span ((before ++ outside) ++ open_tag ++ inside ++ close_tag
                       ++ spans_text spans tail)) with true.
    + rewrite strip_first_span_first
        by (rewrite ?lacks_app, ?Hb, ?Hout; (reflexivity || exact Hin)).
      rewrite (IH Hs fuel (before ++ outside))
        by (rewrite ?lacks_app, ?Hb, ?Hout; simpl in Hfuel; (reflexivity || lia)).
      repeat rewrite <- app_assoc. reflexivity.
    + symmetry. unfold has_span. rewrite occurs_app.
      replace ((before ++ outside) ++ open_tag ++ inside ++ close_tag
               ++ spans_text spans tail)
        with (((before ++ outside) ++ open_tag ++ inside) ++ close_tag
              ++ spans_text spans tail)
        by (repeat rewrite <- app_assoc; reflexivity).
      rewrite occurs_app. reflexivity.
Qed.

(** X8: on a text whose only angle brackets are those of its markers,
    opening and closing in turn, the cleanup returns after as many rounds
    as there are spans, with the text outside the spans, its empty lines
    dropped and its ends trimmed. *)
Theorem cleanup_removes_spans (spans : list (str * str)) (tail : str)
  (fuel : nat) :
  spans_lack angle spans = true -> lacks angle tail = true ->
  length spans <= fuel ->
  clean_response_content fuel (spans_text spans tail)
  = Some (strip (collapse_newlines (concat (map fst spans) ++ tail))).
Proof.
  intros Hs Ht Hfuel.
  pose proof (strip_spans_spans_text spans tail Hs Ht fuel [] eq_refl Hfuel)
    as Hloop.
  cbn [app] in Hloop. unfold clean_response_content.
  destruct (spans_text spans tail) as [|c s] eqn:E.
  - destruct spans as [|[outside inside] spans].
    + cbn [spans_text] in E. subst tail. reflexivity.
    + cbn [spans_text] in E. apply (f_equal (@length _)) in E.
      rewrite !length_app in E. change (length open_tag) with 7 in E.
      simpl in E. lia.
  - rewrite Hloop. reflexivity.
Qed.

Lemma cleanup_removes_spans_witness :
  clean_response_content 2 (py "a<think>x</think> b <think>y</think>c")
  = Some (py "a b c").
Proof.
  apply (cleanup_removes_spans
           [(py "a", py "x"); (py " b ", py "y")] (py "c") 2);
    [reflexivity | reflexivity | apply Nat.leb_le; reflexivity].
Defined.

(** ** Records *)

Lemma str_eqb_refl (a : str) : str_eqb a a = true.
Proof. apply str_eqb_eq. reflexivity. Qed.

Lemma dict_get_set_same (members : list (str * json)) (key : str) (v : json) :
  dict_get (dict_set members key v) key = Some v.
Proof.
  induction members as [|[k w] members IH]; cbn [dict_set dict_get].
  - rewrite str_eqb_refl. reflexivity.
  - destruct (str_eqb k key) eqn:E; cbn [dict_get]; rewrite E;
      [reflexivity | exact IH].
Qed.

Lemma dict_get_set_other (members : list (str * json)) (key other : str)
  (v : json) :
  str_eqb other key = false ->
  dict_get (dict_set members key v) other = dict_get members other.
Proof.
  intros Hne. induction members as [|[k w] members IH];
    cbn [dict_set dict_get].
  - destruct (str_eqb key other) eqn:E; [|reflexivity].
    apply str_eqb_eq in E. subst other. rewrite str_eqb_refl in Hne.
    discriminate.
  - destruct (str_eqb k key) eqn:E; cbn [dict_get].
    + apply str_eqb_eq in E. subst k.
      replace (str_eqb key other) with false; [reflexivity|].
      destruct (str_eqb key other) eqn:E'; [|reflexivity].
      apply str_eqb_eq in E'. subst other. rewrite str_eqb_refl in Hne.
      discriminate.
    + rewrite IH. reflexivity.
Qed.

Lemma dict_set_keys (members : list (str * json)) (key : str) (v w : json) :
  dict_get members key = Some w ->
  map fst (dict_set members key v) = map fst members.
Proof.
  induction members as [|[k x] members IH]; cbn [dict_set dict_get];
    [discriminate|].
  destruct (str_eqb k key); intros H; cbn [map fst];
    [reflexivity | rewrite IH by exact H; reflexivity].
Qed.

Lemma dict_set_same (members : list (str * json)) (key : str) (v : json) :
  dict_get members key = Some v -> dict_set members key v = members.
Proof.
  induction members as [|[k x] members IH]; cbn [dict_set dict_get];
    [discriminate|].
  destruct (str_eqb k key).
  - intros [= ->]. reflexivity.
  - intros H. rewrite IH by exact H. reflexivity.
Qed.

(** ** The streaming transformer, line by line *)

Section Lines.

Variable json_loads : str -> loads_result.

(** X9: a record that parses to an object without a [message] member, or
    whose [message] is an object without a [content] member, is forwarded
    as it came, whatever the state, and the state is kept. *)
Theorem other_records_pass_through (st : bool) (chunk : bytes) (text : str)
  (data msg : list (str * json)) :
  chunk <> [] ->
  utf8_decode chunk = Some text ->
  json_loads text = Parsed (JDict data) ->
  dict_get data (py "message") = None
  \/ (dict_get data (py "message") = Some (JDict msg)
      /\ dict_get msg (py "content") = None) ->
  generate_step json_loads st chunk = ret ([Raw chunk], st).
Proof.
  intros Hne Hdec Hloads Hshape. unfold generate_step.
  destruct chunk as [|b chunk]; [contradiction|].
  rewrite Hdec, Hloads. cbn [contains getitem bind ret].
  destruct Hshape as [Hm|[Hm Hc]]; rewrite Hm; cbn [contains getitem bind ret].
  - reflexivity.
  - rewrite Hc. reflexivity.
Qed.

(** X10: for a record with a text payload of which the filter retains
    something visible, the record yielded is the parsed one with
    [message.content] replaced by the retained text: the members of the
    record and of its [message] keep their keys and order, and every
    other member keeps its value. *)
Theorem retained_text_replaces_content (st : bool) (chunk : bytes)
  (text : str) (data msg : list (str * json)) (content : str) :
  chunk <> [] ->
  utf8_decode chunk = Some text ->
  json_loads text = Parsed (JDict data) ->
  dict_get data (py "message") = Some (JDict msg) ->
  dict_get msg (py "content") = Some (JStr content) ->
  let r := process_thinking_content content st in
  is_empty_content (fst r) = false ->
  exists data' msg',
    generate_step json_loads st chunk = ret ([Dumped (JDict data')], snd r)
    /\ dict_get data' (py "message") = Some (JDict msg')
    /\ dict_get msg' (py "content") = Some (JStr (fst r))
    /\ map fst data' = map fst data
    /\ map fst msg' = map fst msg
    /\ (forall k, str_eqb k (py "message") = false ->
                  dict_get data' k = dict_get data k)
    /\ (forall k, str_eqb k (py "content") = false ->
                  dict_get msg' k = dict_get msg k).
Proof.
  intros Hne Hdec Hloads Hmsg Hcontent r Hvisible.
  pose proof (generate_step_text json_loads st chunk text data msg content
                Hne Hdec Hloads Hmsg Hcontent) as Hstep.
  cbv zeta in Hstep. fold r in Hstep. rewrite Hvisible in Hstep.
  eexists _, _. split; [exact Hstep|].
  split; [apply dict_get_set_same|].
  split; [apply dict_get_set_same|].
  split; [apply (dict_set_keys _ _ _ _ Hmsg)|].
  split; [apply (dict_set_keys _ _ _ _ Hcontent)|].
  split; intros k Hk; apply dict_get_set_other; exact Hk.
Qed.

Lemma generate_step_at_most_one (st st' : bool) (chunk : bytes)
  (out : list record) :
  generate_step json_loads st chunk = inr (out, st') -> length out <= 1.
Proof.
  unfold generate_step, bind, ret, raise. intros H.
  repeat (break_match_in H; try discriminate);
    injection H as <- _; simpl; lia.
Qed.

(** X11: [generate] never yields more records than it has read lines. *)
Theorem generate_yields_at_most_one_per_line (st : bool)
  (lines : list bytes) :
  length (fst (generate_from json_loads st lines)) <= length lines.
Proof.
  revert st. induction lines as [|chunk lines IH]; intros st; [simpl; lia|].
  cbn [generate_from].
  destruct (generate_step json_loads st chunk) as [e|[out st']] eqn:E;
    [simpl; lia|].
  cbn [fst]. rewrite length_app.
  pose proof (generate_step_at_most_one _ _ _ _ E).
  specialize (IH st'). simpl. lia.
Qed.

(** X13: a line that parses to [null], a truth value or a number raises
    [TypeError] at the test ['message' in data], which no handler catches:
    the generator ends there. *)
Theorem scalar_record_ends_the_stream (st : bool) (chunk : bytes)
  (text : str) (data : json) (rest : list bytes) :
  chunk <> [] ->
  utf8_decode chunk = Some text ->
  json_loads text = Parsed data ->
  match data with
  | JNull | JBool _ | JInt _ | JFloat _ => True
  | _ => False
  end ->
  generate_step json_loads st chunk = raise TypeError
  /\ generate_from json_loads st (chunk :: rest) = ([], Some TypeError).
Proof.
  intros Hne Hdec Hloads Hscalar.
  assert (Hstep : generate_step json_loads st chunk = raise TypeError).
  { unfold generate_step. destruct chunk as [|b chunk]; [contradiction|].
    rewrite Hdec, Hloads. destruct data; (contradiction || reflexivity). }
  split; [exact Hstep|]. cbn [generate_from]. rewrite Hstep. reflexivity.
Qed.

End Lines.

Lemma other_records_pass_through_witness :
  generate_step reference_json_loads InsideThinking done_record
  = ret ([Raw done_record], InsideThinking).
Proof.
  refine (other_records_pass_through reference_json_loads InsideThinking
            done_record _ _ [] _ eq_refl eq_refl (or_introl eq_refl)).
  discriminate.
Defined.

Lemma retained_text_replaces_content_witness :
  exists data' msg',
    generate_step reference_json_loads Normal answer_record
    = ret ([Dumped (JDict data')], Normal)
    /\ dict_get data' (py "message") = Some (JDict msg')
    /\ dict_get msg' (py "content") = Some (JStr (py "ok"))
    /\ map fst data' = [py "message"; py "done"]
    /\ map fst msg' = [py "role"; py "content"].
Proof.
  destruct (retained_text_replaces_content reference_json_loads Normal
              answer_record _ _ _ (py "ok")
              ltac:(discriminate) eq_refl eq_refl eq_refl eq_refl eq_refl)
    as (data' & msg' & Hstep & Hm & Hc & Hk & Hk' & _).
  exists data', msg'. repeat split; assumption.
Defined.

Lemma scalar_record_ends_the_stream_witness :
  generate reference_json_loads [ascii_bytes "null"; done_record]
  = ([], Some TypeError).
Proof.
  refine (proj2 (scalar_record_ends_the_stream reference_json_loads Normal
                   (ascii_bytes "null") _ JNull [done_record]
                   _ eq_refl eq_refl I)).
  discriminate.
Defined.

(** ** The non-streaming branch *)

(** X14: when the upstream body is an object whose [response] is a text
    on which the cleanup returns, the reply is that object with
    [response] replaced by the cleaned text; its members keep their keys
    and order, and every other member keeps its value. *)
Theorem non_streaming_cleans_response (fuel : nat)
  (data : list (str * json)) (content cleaned : str) :
  dict_get data (py "response") = Some (JStr content) ->
  clean_response_content fuel content = Some cleaned ->
  exists data',
    non_streaming fuel (Parsed (JDict data)) = Some (JsonReply (JDict data'))
    /\ dict_get data' (py "response") = Some (JStr cleaned)
    /\ map fst data' = map fst data
    /\ (forall k, str_eqb k (py "response") = false ->
                  dict_get data' k = dict_get data k).
Proof.
  intros Hget Hclean.
  exists (dict_set data (py "response") (JStr cleaned)).
  split; [|split; [apply dict_get_set_same|split;
    [apply (dict_set_keys _ _ _ _ Hget)
    |intros k Hk; apply dict_get_set_other; exact Hk]]].
  unfold non_streaming, contains, getitem, setitem, ret. rewrite Hget.
  cbn [clean_response_value]. rewrite Hclean. reflexivity.
Qed.

Lemma non_streaming_cleans_response_witness :
  exists data',
    non_streaming 1 (Parsed (JDict generate_reply))
    = Some (JsonReply (JDict data'))
    /\ dict_get data' (py "response") = Some (JStr (py "4"))
    /\ map fst data' = [py "model"; py "response"; py "done"].
Proof.
  destruct (non_streaming_cleans_response 1 generate_reply
              (py "<think>2+2</think> 4") (py "4") eq_refl eq_refl)
    as (data' & H1 & H2 & H3 & _).
  exists data'. repeat split; assumption.
Defined.

(** X15: an object without a [response] member, or whose [response] is
    false ([null], [false], zero, an empty text, list or object), is
    returned as it came. *)
Theorem non_streaming_leaves_record (fuel : nat) (data : list (str * json))
  (v : json) :
  dict_get data (py "response") = None
  \/ (dict_get data (py "response") = Some v /\ truthy v = false) ->
  non_streaming fuel (Parsed (JDict data)) = Some (JsonReply (JDict data)).
Proof.
  intros [Hnone|[Hget Hfalse]];
    unfold non_streaming, contains, getitem, setitem.
  - rewrite Hnone. reflexivity.
  - rewrite Hget.
    assert (Hclean : clean_response_value fuel v = Some (ret v)).
    { destruct v as [| | | |s| |]; cbn [clean_response_value];
        rewrite ?Hfalse; try reflexivity.
      destruct s; [reflexivity | discriminate]. }
    unfold ret in *. cbv iota beta. rewrite Hclean.
    rewrite dict_set_same by exact Hget.
    reflexivity.
Qed.

Lemma non_streaming_leaves_record_witness :
  non_streaming 0 (Parsed (JDict [(py "done", JBool true)]))
  = Some (JsonReply (JDict [(py "done", JBool true)])).
Proof.
  apply (non_streaming_leaves_record 0 [(py "done", JBool true)] JNull).
  left. reflexivity.
Defined.

Lemma clean_response_value_raises (fuel : nat) (v : json) :
  truthy v = true -> (forall s, v <> JStr s) ->
  exists e, clean_response_value fuel v = Some (raise e).
Proof.
  intros Ht Hs.
  destruct v as [| | | |s|items|members]; cbn [clean_response_value];
    rewrite ?Ht; cbn [negb contains bind ret raise];
    try (eexists; reflexivity).
  - elim (Hs s). reflexivity.
  - destruct (existsb _ items); [destruct (existsb _ items)|];
      eexists; reflexivity.
  - destruct (dict_get members open_tag);
      [destruct (dict_get members close_tag)|]; eexists; reflexivity.
Qed.

(** X16: the non-streaming branch answers with the upstream body as it
    came whenever that body is not JSON, is [null], a truth value or a
    number, or is an object whose [response] is true and no text: every
    exception inside the [try] block is caught. *)
Theorem non_streaming_falls_back (fuel : nat) (parsed : loads_result) :
  parsed = JSONDecodeError
  \/ (exists e, parsed = LoadsRaised e)
  \/ (exists data, parsed = Parsed data
                   /\ match data with
                      | JNull | JBool _ | JInt _ | JFloat _ => True
                      | _ => False
                      end)
  \/ (exists members v,
        parsed = Parsed (JDict members)
        /\ dict_get members (py "response") = Some v
        /\ truthy v = true /\ (forall s, v <> JStr s)) ->
  non_streaming fuel parsed = Some UpstreamReply.
Proof.
  intros [->|[[e ->]|[(data & -> & Hscalar)|(members & v & -> & Hget & Ht & Hs)]]].
  - reflexivity.
  - reflexivity.
  - destruct data; (contradiction || reflexivity).
  - unfold non_streaming, contains, getitem. rewrite Hget.
    unfold ret. cbv iota beta.
    destruct (clean_response_value_raises fuel v Ht Hs) as [e ->].
    reflexivity.
Qed.

Lemma non_streaming_falls_back_witness :
  non_streaming 0 (Parsed (JDict [(py "response", JInt 5)]))
  = Some UpstreamReply.
Proof.
  apply (non_streaming_falls_back 0 (Parsed (JDict [(py "response", JInt 5)]))).
  right. right. right. exists [(py "response", JInt 5)], (JInt 5).
  repeat split. intros s H. discriminate H.
Defined.

(** X17: the non-streaming branch fails to answer only when the upstream
    body is an object whose [response] is a text on which the cleanup
    loop does not end. *)
Theorem non_streaming_hangs_only_in_cleanup (fuel : nat)
  (parsed : loads_result) :
  non_streaming fuel parsed = None ->
  exists members content,
    parsed = Parsed (JDict members)
    /\ dict_get members (py "response") = Some (JStr content)
    /\ content <> []
    /\ strip_spans fuel content = None.
Proof.
  unfold non_streaming. intros H.
  destruct parsed as [data| |e]; try discriminate.
  destruct data as [| | | |s|items|members]; cbn [contains getitem ret] in H;
    try discriminate.
  - destruct (occurs (py "response") s); discriminate.
  - destruct (existsb _ items); discriminate.
  - destruct (dict_get members (py "response")) as [v|] eqn:Eg;
      [|discriminate].
    unfold ret in H. cbv iota beta in H.
    destruct (clean_response_value fuel v) as [[e|cleaned]|] eqn:Ec;
      try discriminate.
    destruct v as [| | | |content| |];
      try (cbn [clean_response_value] in Ec;
           repeat (break_match_in Ec; try discriminate); discriminate).
    exists members, content. split; [reflexivity|]. split; [exact Eg|].
    cbn [clean_response_value] in Ec. unfold clean_response_content in Ec.
    destruct content as [|c content]; [discriminate|].
    split; [discriminate|].
    destruct (strip_spans fuel (c :: content)); [discriminate | reflexivity].
Qed.

Lemma non_streaming_hangs_only_in_cleanup_witness :
  exists members content,
    Parsed (JDict [(py "response", JStr (py "</think><think>"))])
    = Parsed (JDict members)
    /\ dict_get members (py "response") = Some (JStr content)
    /\ content <> []
    /\ strip_spans 3 content = None.
Proof.
  apply (non_streaming_hangs_only_in_cleanup 3
           (Parsed (JDict [(py "response", JStr (py "</think><think>"))]))).
  reflexivity.
Defined.
